(** * Verification of the LiDAR point-cloud loader, colorizer and viewer camera

    Shallow embedding of [src/src/loader.py], [src/src/cityscape_viewer.py]
    and [src/src/renderer.py].  Coordinates, colors and camera parameters
    are Python/numpy floats; outside the outlier filter they are modelled as
    exact rationals [Q].  The statistical outlier filter depends on the IEEE
    infinities and NaNs that scipy and numpy produce, so it is modelled with
    Rocq's primitive binary64 floats. *)

From Stdlib Require Import List ZArith QArith Qround Qminmax Qabs Lia Lqa Sorting.Sorted
  Sorting.Permutation Floats.
Import ListNotations.

(* ================================================================== *)
(** ** numpy.unique(..., axis=0, return_index=True) *)

(** [np.unique] with [return_index=True] sorts the rows with a stable
    ([mergesort]) argsort, marks the first row of every run of equal rows
    ([mask[1:] = aux[1:] != aux[:-1]]) and returns [perm[mask]].  Any stable
    sort yields the same permutation; insertion sort is used here. *)
Section UniqueRows.

Variable K : Type.
Variable cmp : K -> K -> comparison.
Variable key : nat -> K.

(** Insert index [i] before the first index whose row is not smaller:
    [i] precedes every index of [l] in the input, so this keeps the sort
    stable. *)
Fixpoint insert_stable (i : nat) (l : list nat) : list nat :=
  match l with
  | [] => [i]
  | j :: l' =>
      match cmp (key i) (key j) with
      | Gt => j :: insert_stable i l'
      | _ => i :: l
      end
  end.

Definition argsort_stable (l : list nat) : list nat :=
  fold_right insert_stable [] l.

(** [perm[mask]]: keep an index when its row differs from the row of its
    predecessor in sorted order ([mask[:1] = True]). *)
Definition keep_row (prev : option K) (i : nat) : bool :=
  match prev with
  | Some k => match cmp k (key i) with Eq => false | _ => true end
  | None => true
  end.

Fixpoint first_of_runs (prev : option K) (l : list nat) : list nat :=
  match l with
  | [] => []
  | i :: l' =>
      if keep_row prev i then i :: first_of_runs (Some (key i)) l'
      else first_of_runs (Some (key i)) l'
  end.

Definition unique_return_index (n : nat) : list nat :=
  first_of_runs None (argsort_stable (seq 0 n)).

End UniqueRows.

Arguments insert_stable {K} cmp key i l.
Arguments argsort_stable {K} cmp key l.
Arguments keep_row {K} cmp key prev i.
Arguments first_of_runs {K} cmp key prev l.
Arguments unique_return_index {K} cmp key n.

(* ================================================================== *)
(** ** PointCloudLoader.voxel_downsample *)

Definition point := (Q * Q * Q)%type.
Definition color := (Q * Q * Q)%type.
Definition vkey := (Z * Z * Z)%type.

Definition point0 : point := (0, 0, 0)%Q.
Definition color0 : color := (0, 0, 0)%Q.
Definition vkey0 : vkey := (0, 0, 0)%Z.

(** [.astype(np.int32)] of an already floored value: values in range are
    kept; out-of-range values become the x86 "integer indefinite" value
    [-2^31]. *)
Definition astype_int32 (z : Z) : Z :=
  if andb (- 2 ^ 31 <=? z)%Z (z <? 2 ^ 31)%Z then z else (- 2 ^ 31)%Z.

(** One row of [np.floor(points / voxel_size).astype(np.int32)]. *)
Definition voxel_index (voxel_size : Q) (p : point) : vkey :=
  let '(x, y, z) := p in
  (astype_int32 (Qfloor (x / voxel_size)),
   astype_int32 (Qfloor (y / voxel_size)),
   astype_int32 (Qfloor (z / voxel_size))).

Definition voxel_indices (voxel_size : Q) (points : list point) : list vkey :=
  map (voxel_index voxel_size) points.

(** numpy orders [int32] rows lexicographically, field by field. *)
Definition key_compare (a b : vkey) : comparison :=
  let '(a1, a2, a3) := a in
  let '(b1, b2, b3) := b in
  match Z.compare a1 b1 with
  | Eq => match Z.compare a2 b2 with
          | Eq => Z.compare a3 b3
          | c => c
          end
  | c => c
  end.

Definition row_key (rows : list vkey) (i : nat) : vkey := nth i rows vkey0.

Definition np_unique_return_index (rows : list vkey) : list nat :=
  unique_return_index key_compare (row_key rows) (length rows).

(** [points[unique_indices]] and [colors[unique_indices]]. *)
Definition take_rows {A} (d : A) (rows : list A) (idx : list nat) : list A :=
  map (fun i => nth i rows d) idx.

Definition voxel_downsample (points : list point) (colors : option (list color))
    (voxel_size : Q) : list point * option (list color) :=
  let unique_indices := np_unique_return_index (voxel_indices voxel_size points) in
  (take_rows point0 points unique_indices,
   option_map (fun c => take_rows color0 c unique_indices) colors).

(** The reduction the spec describes: the first point of every voxel, in
    the order in which the voxels are first seen. *)
Fixpoint first_seen_indices (rows : list vkey) (seen : list vkey) (i : nat)
    : list nat :=
  match rows with
  | [] => []
  | r :: rows' =>
      if existsb (fun s => match key_compare s r with Eq => true | _ => false end) seen
      then first_seen_indices rows' seen (S i)
      else i :: first_seen_indices rows' (r :: seen) (S i)
  end.

Definition voxel_downsample_first_seen (points : list point)
    (colors : option (list color)) (voxel_size : Q)
    : list point * option (list color) :=
  let idx := first_seen_indices (voxel_indices voxel_size points) [] 0 in
  (take_rows point0 points idx, option_map (fun c => take_rows color0 c idx) colors).

(* ================================================================== *)
(** ** Python truthiness of the loader's optional parameters *)

(** [if self.downsample_voxel:]: [None] and [0.0] are falsy, every other
    float (negative ones included) is truthy. *)
Definition truthy_float (v : option Q) : bool :=
  match v with
  | Some x => negb (Qeq_bool x 0)
  | None => false
  end.

Definition truthy_int (n : option nat) : bool :=
  match n with
  | Some (S _) => true
  | _ => false
  end.

(** A LAS file as laspy exposes it: XYZ, the optional 16-bit RGB channels
    ([hasattr(las, 'red')]) and the optional classification channel. *)
Record las_file := mk_las {
  las_xyz : list point;
  las_rgb : option (list (Z * Z * Z));
  las_classification : option (list Z)
}.

(** Step "Apply downsampling if requested" of [PointCloudLoader.load]
    (lines 68-71), also used verbatim by [load_urban_las] (lines 81-85). *)
Definition downsample_step (downsample_voxel : option Q) (points : list point)
    (colors : option (list color)) : list point * option (list color) :=
  match downsample_voxel with
  | Some v => if truthy_float downsample_voxel
              then voxel_downsample points colors v
              else (points, colors)
  | None => (points, colors)
  end.

(** Step "Limit number of points if requested": [np.random.choice] is the
    injected sampler [choice n m], returning [m] distinct indices below [n]. *)
Definition sample_step (choice : nat -> nat -> list nat) (max_points : option nat)
    (points : list point) (colors : option (list color))
    : list point * option (list color) :=
  match max_points with
  | Some m =>
      if truthy_int max_points && (m <? length points)%nat then
        let indices := choice (length points) m in
        (take_rows point0 points indices,
         option_map (fun c => take_rows color0 c indices) colors)
      else (points, colors)
  | None => (points, colors)
  end.

(** [las.red / 65535.0] and so on. *)
Definition rgb_colors (rgb : list (Z * Z * Z)) : list color :=
  map (fun '(r, g, b) =>
         (inject_Z r / 65535, inject_Z g / 65535, inject_Z b / 65535)%Q) rgb.

(** [PointCloudLoader.load] after the file has been read (metadata and
    printing omitted). *)
Definition load (choice : nat -> nat -> list nat) (max_points : option nat)
    (downsample_voxel : option Q) (las : las_file)
    : list point * option (list color) :=
  let points := las_xyz las in
  let colors := option_map rgb_colors (las_rgb las) in
  let '(points, colors) := downsample_step downsample_voxel points colors in
  sample_step choice max_points points colors.

(* ================================================================== *)
(** ** cityscape_viewer: CLASSIFICATION_COLORS and load_urban_las *)

Definition CLASSIFICATION_COLORS : list (Z * color) :=
  [ (0%Z,  (1#2, 1#2, 1#2));
    (1%Z,  (3#10, 3#10, 3#10));
    (2%Z,  (6#10, 4#10, 2#10));
    (3%Z,  (2#10, 6#10, 2#10));
    (4%Z,  (1#10, 7#10, 1#10));
    (5%Z,  (0, 8#10, 0));
    (6%Z,  (9#10, 1#10, 1#10));
    (7%Z,  (9#10, 9#10, 0));
    (9%Z,  (0, 1#2, 9#10));
    (10%Z, (1#2, 0, 9#10));
    (11%Z, (3#10, 3#10, 3#10));
    (13%Z, (8#10, 8#10, 2#10));
    (14%Z, (9#10, 1#2, 0));
    (15%Z, (7#10, 3#10, 0));
    (17%Z, (4#10, 4#10, 4#10));
    (18%Z, (0, 8#10, 8#10)) ]%Q.

(** [dict.get(key, default)] on a dict literal with distinct keys. *)
Definition dict_get {V} (d : list (Z * V)) (k : Z) (default : V) : V :=
  match find (fun kv => Z.eqb (fst kv) k) d with
  | Some (_, v) => v
  | None => default
  end.

Definition default_gray : color := (1#2, 1#2, 1#2)%Q.

(** [CLASSIFICATION_COLORS.get(cls, (0.5, 0.5, 0.5))] *)
Definition classification_color (cls : Z) : color :=
  dict_get CLASSIFICATION_COLORS cls default_gray.

(** Colors of [load_urban_las] (lines 55-79): only the classification
    channel is read. *)
Definition urban_colors (las : las_file) : option (list color) :=
  match las_classification las with
  | Some cls => Some (map classification_color cls)
  | None => None
  end.

(** [load_urban_las] after the file has been read. *)
Definition load_urban_las (choice : nat -> nat -> list nat) (max_points : option nat)
    (downsample_voxel : option Q) (las : las_file)
    : list point * option (list color) :=
  let points := las_xyz las in
  let colors := urban_colors las in
  let '(points, colors) := downsample_step downsample_voxel points colors in
  sample_step choice max_points points colors.

(* ================================================================== *)
(** ** renderer.Camera *)

(** The camera state.  [position] is recomputed by [update_position] from
    [target], [distance], [azimuth] and [elevation] (a trigonometric
    function of them) after every mutator, so it is not stored here. *)
Record camera := mk_camera {
  target : Q * Q * Q;
  distance : Q;
  azimuth : Q;
  elevation : Q;
  rotation_speed : Q;
  zoom_speed : Q;
  pan_speed : Q
}.

(** [Camera()]: position (0, 0, 50), target (0, 0, 0), so
    [distance = glm.length(position - target) = 50]. *)
Definition default_camera : camera :=
  {| target := (0, 0, 0)%Q; distance := 50; azimuth := 45; elevation := 30;
     rotation_speed := 1#2; zoom_speed := 2; pan_speed := 1#10 |}.

(** [np.clip(x, lo, hi)] is [minimum(maximum(x, lo), hi)]. *)
Definition np_clip (x lo hi : Q) : Q := Qmin (Qmax x lo) hi.

Definition rotate (c : camera) (delta_azimuth delta_elevation : Q) : camera :=
  let az := azimuth c + delta_azimuth * rotation_speed c in
  let el := elevation c + delta_elevation * rotation_speed c in
  let el := np_clip el (-89) 89 in
  {| target := target c; distance := distance c; azimuth := az; elevation := el;
     rotation_speed := rotation_speed c; zoom_speed := zoom_speed c;
     pan_speed := pan_speed c |}.

(** [max(1.0, min(self.distance, 1000.0))] *)
Definition zoom (c : camera) (delta : Q) : camera :=
  let d := distance c * (1 - delta * zoom_speed c * (1#10)) in
  let d := Qmax 1 (Qmin d 1000) in
  {| target := target c; distance := d; azimuth := azimuth c;
     elevation := elevation c; rotation_speed := rotation_speed c;
     zoom_speed := zoom_speed c; pan_speed := pan_speed c |}.

(** Any sequence of [rotate] calls. *)
Definition rotate_all (c : camera) (deltas : list (Q * Q)) : camera :=
  fold_left (fun c' d => rotate c' (fst d) (snd d)) deltas c.

(* ================================================================== *)
(** ** PointCloudRenderer: height colormap and load_points *)

Definition list_min (x : Q) (l : list Q) : Q := fold_left Qmin l x.
Definition list_max (x : Q) (l : list Q) : Q := fold_left Qmax l x.

(** [heights.min()] / [heights.max()] raise [ValueError] on an empty array. *)
Definition np_min (l : list Q) : option Q :=
  match l with [] => None | x :: l' => Some (list_min x l') end.
Definition np_max (l : list Q) : option Q :=
  match l with [] => None | x :: l' => Some (list_max x l') end.

Definition colormap_color (n : Q) : color :=
  (np_clip ((3#2) * n - (1#2)) 0 1,
   np_clip (-2 * Qabs (n - (1#2)) + 1) 0 1,
   np_clip ((3#2) * (1 - n) - (1#2)) 0 1).

Definition height_colormap (heights : list Q) : option (list color) :=
  match np_min heights, np_max heights with
  | Some h_min, Some h_max =>
      let normalized :=
        if Qlt_le_dec h_min h_max
        then map (fun h => (h - h_min) / (h_max - h_min)) heights
        else map (fun _ => 0) heights in
      Some (map colormap_color normalized)
  | _, _ => None
  end.

Definition px (p : point) : Q := fst (fst p).
Definition py (p : point) : Q := snd (fst p).
Definition pz (p : point) : Q := snd p.

(** [points.mean(axis=0)]; [None] on an empty array. *)
Definition np_mean (l : list Q) : option Q :=
  match l with
  | [] => None
  | _ => Some (fold_right Qplus 0 l / inject_Z (Z.of_nat (length l)))
  end.

(** The renderer's point-cloud fields and camera after [load_points];
    [None] when numpy raises (empty array). *)
Record renderer := mk_renderer {
  r_points : list point;
  r_colors : list color;
  r_camera : camera
}.

Definition load_points (cam : camera) (points : list point)
    (colors : option (list color)) : option renderer :=
  let colors := match colors with
                | Some c => Some c
                | None => height_colormap (map pz points)
                end in
  match colors, np_mean (map px points), np_mean (map py points),
        np_mean (map pz points),
        np_min (map px points), np_max (map px points),
        np_min (map py points), np_max (map py points),
        np_min (map pz points), np_max (map pz points) with
  | Some colors, Some cx, Some cy, Some cz,
    Some x0, Some x1, Some y0, Some y1, Some z0, Some z1 =>
      let max_dim := Qmax (Qmax (x1 - x0) (y1 - y0)) (z1 - z0) in
      Some {| r_points := points; r_colors := colors;
              r_camera := {| target := (cx, cy, cz); distance := max_dim * (3#2);
                             azimuth := azimuth cam; elevation := elevation cam;
                             rotation_speed := rotation_speed cam;
                             zoom_speed := zoom_speed cam;
                             pan_speed := pan_speed cam |} |}
  | _, _, _, _, _, _, _, _, _, _ => None
  end.

(* ================================================================== *)
(** ** PointCloudRenderer input callbacks *)

(** The operations the callbacks call on [self.camera]; [cam_new] is
    [Camera()], used by the reset key. *)
Class CameraOps (C : Type) := {
  cam_rotate : C -> Q -> Q -> C;
  cam_pan : C -> Q -> Q -> C;
  cam_zoom : C -> Q -> C;
  cam_new : C
}.

(** glfw constants. *)
Definition GLFW_RELEASE : Z := 0.
Definition GLFW_PRESS : Z := 1.
Definition GLFW_REPEAT : Z := 2.
Definition MOUSE_BUTTON_LEFT : Z := 0.
Definition MOUSE_BUTTON_RIGHT : Z := 1.
Definition KEY_ESCAPE : Z := 256.
Definition KEY_W : Z := 87.
Definition KEY_S : Z := 83.
Definition KEY_EQUAL : Z := 61.
Definition KEY_KP_ADD : Z := 334.
Definition KEY_MINUS : Z := 45.
Definition KEY_KP_SUBTRACT : Z := 333.
Definition KEY_R : Z := 82.

(** The renderer fields the callbacks read and write. *)
Record viewer (C : Type) := mk_viewer {
  v_camera : C;
  mouse_pressed : bool;
  last_mouse_x : Q;
  last_mouse_y : Q;
  mouse_button : option Z;
  point_size : Q;
  should_close : bool
}.
Arguments mk_viewer {C}.
Arguments v_camera {C}.
Arguments mouse_pressed {C}.
Arguments last_mouse_x {C}.
Arguments last_mouse_y {C}.
Arguments mouse_button {C}.
Arguments point_size {C}.
Arguments should_close {C}.

(** A glfw callback invocation; a button event carries the cursor position
    that [glfw.get_cursor_pos] returns at that moment. *)
Inductive event :=
| MouseButtonEv (button action : Z) (cursor_x cursor_y : Q)
| CursorPosEv (xpos ypos : Q)
| ScrollEv (xoffset yoffset : Q)
| KeyEv (key action : Z).

Section Callbacks.
Context {C : Type} `{CameraOps C}.

Definition mouse_button_callback (v : viewer C) (button action : Z) (cx cy : Q)
    : viewer C :=
  if Z.eqb action GLFW_PRESS then
    mk_viewer (v_camera v) true cx cy (Some button) (point_size v) (should_close v)
  else if Z.eqb action GLFW_RELEASE then
    mk_viewer (v_camera v) false (last_mouse_x v) (last_mouse_y v) None
              (point_size v) (should_close v)
  else v.

Definition button_is (b : option Z) (c : Z) : bool :=
  match b with Some b' => Z.eqb b' c | None => false end.

Definition mouse_move_callback (v : viewer C) (xpos ypos : Q) : viewer C :=
  if mouse_pressed v then
    let dx := xpos - last_mouse_x v in
    let dy := ypos - last_mouse_y v in
    let cam :=
      if button_is (mouse_button v) MOUSE_BUTTON_LEFT then
        cam_rotate (v_camera v) dx (- dy)
      else if button_is (mouse_button v) MOUSE_BUTTON_RIGHT then
        cam_pan (v_camera v) (- dx) dy
      else v_camera v in
    mk_viewer cam true xpos ypos (mouse_button v) (point_size v) (should_close v)
  else v.

Definition scroll_callback (v : viewer C) (xoffset yoffset : Q) : viewer C :=
  mk_viewer (cam_zoom (v_camera v) (- yoffset)) (mouse_pressed v)
            (last_mouse_x v) (last_mouse_y v) (mouse_button v) (point_size v)
            (should_close v).

Definition with_camera (v : viewer C) (c : C) : viewer C :=
  mk_viewer c (mouse_pressed v) (last_mouse_x v) (last_mouse_y v)
            (mouse_button v) (point_size v) (should_close v).

Definition with_point_size (v : viewer C) (s : Q) : viewer C :=
  mk_viewer (v_camera v) (mouse_pressed v) (last_mouse_x v) (last_mouse_y v)
            (mouse_button v) s (should_close v).

Definition key_callback (v : viewer C) (key action : Z) : viewer C :=
  if Z.eqb action GLFW_PRESS || Z.eqb action GLFW_REPEAT then
    if Z.eqb key KEY_ESCAPE then
      mk_viewer (v_camera v) (mouse_pressed v) (last_mouse_x v) (last_mouse_y v)
                (mouse_button v) (point_size v) true
    else if Z.eqb key KEY_W then with_camera v (cam_zoom (v_camera v) 1)
    else if Z.eqb key KEY_S then with_camera v (cam_zoom (v_camera v) (-1))
    else if Z.eqb key KEY_EQUAL || Z.eqb key KEY_KP_ADD then
      with_point_size v (Qmin (point_size v + (1#2)) 10)
    else if Z.eqb key KEY_MINUS || Z.eqb key KEY_KP_SUBTRACT then
      with_point_size v (Qmax (point_size v - (1#2)) 1)
    else if Z.eqb key KEY_R then with_camera v cam_new
    else v
  else v.

Definition handle_event (v : viewer C) (e : event) : viewer C :=
  match e with
  | MouseButtonEv b a cx cy => mouse_button_callback v b a cx cy
  | CursorPosEv x y => mouse_move_callback v x y
  | ScrollEv xo yo => scroll_callback v xo yo
  | KeyEv k a => key_callback v k a
  end.

Definition handle_events (v : viewer C) (es : list event) : viewer C :=
  fold_left handle_event es v.

(** The renderer's state right after [__init__]. *)
Definition initial_viewer : viewer C :=
  mk_viewer cam_new false 0 0 None 2 false.

End Callbacks.

(** A recording camera: it logs every call the callbacks make. *)
Inductive camera_call :=
| CallRotate (delta_azimuth delta_elevation : Q)
| CallPan (delta_x delta_y : Q)
| CallZoom (delta : Q).

#[export] Instance recording_camera : CameraOps (list camera_call) := {
  cam_rotate c a e := c ++ [CallRotate a e];
  cam_pan c x y := c ++ [CallPan x y];
  cam_zoom c d := c ++ [CallZoom d];
  cam_new := []
}.

(* ================================================================== *)
(** ** PointCloudLoader.remove_outliers (IEEE binary64) *)

Module Outliers.
Local Open Scope float_scope.

Definition fpoint := (float * float * float)%type.

(** Euclidean (Minkowski p = 2) distance used by [cKDTree]. *)
Definition euclidean (p q : fpoint) : float :=
  let '(x1, y1, z1) := p in
  let '(x2, y2, z2) := q in
  sqrt ((x1 - x2) * (x1 - x2) + (y1 - y2) * (y1 - y2) + (z1 - z2) * (z1 - z2)).

Fixpoint insert_float (x : float) (l : list float) : list float :=
  match l with
  | [] => [x]
  | y :: l' => if x <=? y then x :: l else y :: insert_float x l'
  end.

Definition sort_floats (l : list float) : list float :=
  fold_right insert_float [] l.

(** One row of [tree.query(points, k)]: the [k] smallest distances in
    ascending order; missing neighbours are reported as infinite
    distances. *)
Definition kdtree_query_row (pts : list fpoint) (x : fpoint) (k : nat) : list float :=
  let ds := sort_floats (map (euclidean x) pts) in
  firstn k ds ++ repeat infinity (k - length ds).

Fixpoint float_of_nat (n : nat) : float :=
  match n with
  | O => 0
  | S n' => float_of_nat n' + 1
  end.

(** [a.mean()]: sum divided by the count ([nan] for an empty array). *)
Definition np_mean_f (l : list float) : float :=
  fold_left add l 0 / float_of_nat (length l).

(** [a.std()]: [sqrt(mean(abs(a - a.mean())**2))]. *)
Definition np_std_f (l : list float) : float :=
  let m := np_mean_f l in
  sqrt (np_mean_f (map (fun x => (x - m) * (x - m)) l)).

Definition select {A} (l : list A) (mask : list bool) : list A :=
  map fst (filter snd (combine l mask)).

(** [None] when Python raises: with no point, the report
    [n_removed/len(points)] divides by zero. *)
Definition remove_outliers {A} (points : list fpoint) (colors : option (list A))
    (nb_neighbors : nat) (std_ratio : float) : option (list fpoint * option (list A)) :=
  let distances := map (fun p => kdtree_query_row points p (S nb_neighbors)) points in
  let mean_distances := map (fun row => np_mean_f (tl row)) distances in
  let global_mean := np_mean_f mean_distances in
  let global_std := np_std_f mean_distances in
  let threshold := global_mean + std_ratio * global_std in
  let mask := map (fun d => d <? threshold) mean_distances in
  match points with
  | [] => None
  | _ => Some (select points mask, option_map (fun c => select c mask) colors)
  end.

End Outliers.

(* ================================================================== *)
(** ** PointCloudLoader.center_points and normalize_points *)

Definition psub (p q : point) : point :=
  let '(x1, y1, z1) := p in
  let '(x2, y2, z2) := q in
  (x1 - x2, y1 - y2, z1 - z2)%Q.

(** [points.mean(axis=0)]; [None] stands for the [nan] row numpy returns
    (with a warning) on an empty array. *)
Definition np_mean3 (points : list point) : option point :=
  match np_mean (map px points), np_mean (map py points), np_mean (map pz points) with
  | Some x, Some y, Some z => Some (x, y, z)
  | _, _, _ => None
  end.

(** [center_points]: [points - center]; on an empty array the difference
    is the empty array again. *)
Definition center_points (points : list point) : list point * option point :=
  match np_mean3 points with
  | Some center => (map (fun p => psub p center) points, Some center)
  | None => (points, None)
  end.

Definition coords (p : point) : list Q := [px p; py p; pz p].

(** [centered / max_extent], row by row. *)
Definition pdiv (p : point) (s : Q) : point :=
  let '(x, y, z) := p in (x / s, y / s, z / s)%Q.

(** [normalize_points]; [None] when [np.abs(centered).max()] raises on an
    empty array. *)
Definition normalize_points (points : list point) : option (list point * Q) :=
  let '(centered, _) := center_points points in
  match np_max (map Qabs (flat_map coords centered)) with
  | Some max_extent =>
      let normalized :=
        if Qlt_le_dec 0 max_extent
        then map (fun p => pdiv p max_extent) centered
        else centered in
      Some (normalized, max_extent)
  | None => None
  end.

(* ================================================================== *)
(** ** PointCloudLoader.load with its bounds report and metadata *)

(** [(points[:, k].min(), points[:, k].max())] for the three axes; [None]
    when [min] raises on an empty array. *)
Definition bounds_of (points : list point) : option ((Q * Q) * (Q * Q) * (Q * Q)) :=
  match np_min (map px points), np_max (map px points),
        np_min (map py points), np_max (map py points),
        np_min (map pz points), np_max (map pz points) with
  | Some x0, Some x1, Some y0, Some y1, Some z0, Some z1 =>
      Some ((x0, x1), (y0, y1), (z0, z1))
  | _, _, _, _, _, _ => None
  end.

(** The numeric fields of the [metadata] dict. *)
Record metadata := mk_metadata {
  num_points : nat;
  bounds : (Q * Q) * (Q * Q) * (Q * Q);
  has_colors : bool
}.

(** [PointCloudLoader.load] from the read file to its return value: the
    bounds printed at lines 51-53 raise on an empty cloud, then [load]
    runs, then the metadata is built from the final points. *)
Definition load_full (choice : nat -> nat -> list nat) (max_points : option nat)
    (downsample_voxel : option Q) (las : las_file)
    : option (list point * option (list color) * metadata) :=
  match bounds_of (las_xyz las) with
  | None => None
  | Some _ =>
      let '(points, colors) := load choice max_points downsample_voxel las in
      match bounds_of points with
      | Some b =>
          Some (points, colors,
                mk_metadata (length points) b
                  (match colors with Some _ => true | None => false end))
      | None => None
      end
  end.

(** A point lies in the reported bounds. *)
Definition in_bounds (b : (Q * Q) * (Q * Q) * (Q * Q)) (p : point) : Prop :=
  let '((x0, x1), (y0, y1), (z0, z1)) := b in
  x0 <= px p <= x1 /\ y0 <= py p <= y1 /\ z0 <= pz p <= z1.

(* ================================================================== *)
(** ** Bookkeeping over the recorded camera calls *)

(** Sum of the [(delta_azimuth, delta_elevation)] arguments of the
    [rotate] calls of a log. *)
Definition rotate_total (calls : list camera_call) : Q * Q :=
  fold_right (fun c acc =>
                match c with
                | CallRotate a e => (fst acc + a, snd acc + e)
                | _ => acc
                end) (0, 0) calls.

(** Cursor-motion events along a path. *)
Definition cursor_moves (path : list (Q * Q)) : list event :=
  map (fun q => CursorPosEv (fst q) (snd q)) path.

(* ================================================================== *)
(** * Proofs *)

(** ** Facts about the numpy.unique model *)

Section UniqueRowsFacts.

Variable K : Type.
Variable cmp : K -> K -> comparison.
Variable key : nat -> K.

Hypothesis cmp_eq : forall a b, cmp a b = Eq <-> a = b.
Hypothesis cmp_opp : forall a b, cmp b a = CompOpp (cmp a b).
Hypothesis cmp_lt_trans : forall a b c, cmp a b = Lt -> cmp b c = Lt -> cmp a c = Lt.

(** Order of the stable argsort: by row, ties by index. *)
Definition row_idx_lt (i j : nat) : Prop :=
  cmp (key i) (key j) = Lt \/ (key i = key j /\ (i < j)%nat).

Definition row_lt (i j : nat) : Prop := cmp (key i) (key j) = Lt.

Lemma cmp_refl a : cmp a a = Eq.
Proof. apply cmp_eq; reflexivity. Qed.

Lemma cmp_lt_neq a b : cmp a b = Lt -> a <> b.
Proof. intros H ->; rewrite cmp_refl in H; discriminate. Qed.

Lemma row_idx_lt_trans i j l :
  row_idx_lt i j -> row_idx_lt j l -> row_idx_lt i l.
Proof.
  unfold row_idx_lt; intros [H1 | [E1 L1]] [H2 | [E2 L2]].
  - left; eauto.
  - left; rewrite <- E2; exact H1.
  - left; rewrite E1; exact H2.
  - right; split; [congruence | lia].
Qed.

Lemma insert_stable_perm i l :
  Permutation (insert_stable cmp key i l) (i :: l).
Proof.
  induction l as [|j l IH]; simpl; [reflexivity|].
  destruct (cmp (key i) (key j)); try reflexivity.
  rewrite IH; apply perm_swap.
Qed.

Lemma insert_stable_sorted i l :
  StronglySorted row_idx_lt l -> Forall (fun j => (i < j)%nat) l ->
  StronglySorted row_idx_lt (insert_stable cmp key i l).
Proof.
  induction l as [|j l IH]; intros Hs Hlt; simpl.
  - repeat constructor.
  - inversion Hs as [|? ? Hs' Hf]; subst.
    inversion Hlt as [|? ? Hij Hlt']; subst.
    assert (Hhead : row_idx_lt i j ->
              StronglySorted row_idx_lt (i :: j :: l)).
    { intros Hr. constructor; [exact Hs|].
      constructor; [exact Hr|].
      eapply Forall_impl; [|exact Hf]. intros a Ha. eapply row_idx_lt_trans; eauto. }
    destruct (cmp (key i) (key j)) eqn:E.
    + apply Hhead. right; split; [apply cmp_eq; exact E | exact Hij].
    + apply Hhead. left; exact E.
    + constructor; [apply IH; assumption|].
      apply Forall_forall; intros a Ha.
      apply (Permutation_in _ (insert_stable_perm i l)) in Ha.
      destruct Ha as [<- | Ha].
      * left. rewrite cmp_opp, E. reflexivity.
      * rewrite Forall_forall in Hf. apply Hf, Ha.
Qed.

Lemma argsort_stable_perm l : Permutation (argsort_stable cmp key l) l.
Proof.
  induction l as [|i l IH]; simpl; [reflexivity|].
  rewrite insert_stable_perm. apply perm_skip, IH.
Qed.

Lemma argsort_stable_sorted l :
  StronglySorted lt l -> StronglySorted row_idx_lt (argsort_stable cmp key l).
Proof.
  induction l as [|i l IH]; intros Hs; simpl; [constructor|].
  inversion Hs as [|? ? Hs' Hf]; subst.
  apply insert_stable_sorted; [apply IH, Hs'|].
  apply Forall_forall; intros a Ha.
  apply (Permutation_in _ (argsort_stable_perm l)) in Ha.
  rewrite Forall_forall in Hf. apply Hf, Ha.
Qed.

Lemma seq_strongly_sorted s n : StronglySorted lt (seq s n).
Proof.
  revert s; induction n as [|n IH]; intros s; simpl; constructor; [apply IH|].
  apply Forall_forall; intros a Ha. apply in_seq in Ha. lia.
Qed.

Lemma first_of_runs_cons prev i l :
  first_of_runs cmp key prev (i :: l) =
  if keep_row cmp key prev i then i :: first_of_runs cmp key (Some (key i)) l
  else first_of_runs cmp key (Some (key i)) l.
Proof. reflexivity. Qed.

Lemma keep_row_false prev i : keep_row cmp key prev i = false -> prev = Some (key i).
Proof.
  unfold keep_row; destruct prev as [k|]; [|discriminate].
  destruct (cmp k (key i)) eqn:E; try discriminate.
  intros _; apply cmp_eq in E; subst; reflexivity.
Qed.

Lemma keep_row_true prev i : keep_row cmp key prev i = true -> prev <> Some (key i).
Proof.
  unfold keep_row; destruct prev as [k|]; [|discriminate].
  intros Hk Heq; injection Heq as ->. rewrite cmp_refl in Hk; discriminate.
Qed.

Lemma first_of_runs_in prev l h :
  In h (first_of_runs cmp key prev l) -> In h l.
Proof.
  revert prev; induction l as [|i l IH]; intros prev Hin; [exact Hin|].
  rewrite first_of_runs_cons in Hin.
  destruct (keep_row cmp key prev i); [destruct Hin as [<- | Hin]|];
    [left; reflexivity | right | right]; eauto.
Qed.

(** A kept index is the smallest of its row, and its row differs from the
    row before it. *)
Lemma first_of_runs_min l prev h :
  StronglySorted row_idx_lt l ->
  (forall k, prev = Some k -> Forall (fun j => cmp k (key j) <> Gt) l) ->
  In h (first_of_runs cmp key prev l) ->
  prev <> Some (key h) /\ (forall j, In j l -> key j = key h -> (h <= j)%nat).
Proof.
  revert prev h; induction l as [|i l IH]; intros prev h Hs Hp Hin; [destruct Hin|].
  inversion Hs as [|? ? Hs' Hf]; subst.
  assert (Hp' : forall k, Some (key i) = Some k ->
            Forall (fun j => cmp k (key j) <> Gt) l).
  { intros k Hk; injection Hk as <-.
    eapply Forall_impl; [|exact Hf]. intros a [Ha | [Ha _]].
    - rewrite Ha; discriminate.
    - rewrite Ha, cmp_refl; discriminate. }
  assert (Hhead : prev <> Some (key i) ->
            prev <> Some (key i) /\
            (forall j, In j (i :: l) -> key j = key i -> (i <= j)%nat)).
  { intros Hne; split; [exact Hne|].
    intros j [<- | Hj] Ek; [lia|].
    rewrite Forall_forall in Hf. destruct (Hf j Hj) as [Hl | [_ Hl]]; [|lia].
    rewrite Ek, cmp_refl in Hl; discriminate. }
  assert (Hrest : In h (first_of_runs cmp key (Some (key i)) l) ->
            prev <> Some (key h) /\
            (forall j, In j (i :: l) -> key j = key h -> (h <= j)%nat)).
  { intros Hin'.
    destruct (IH _ _ Hs' Hp' Hin') as [Hne Hmin].
    assert (Hih : key i <> key h) by congruence.
    split.
    - intros ->.
      specialize (Hp _ eq_refl). inversion Hp as [|? ? Hki _]; subst.
      rewrite Forall_forall in Hf.
      destruct (Hf h (first_of_runs_in _ _ _ Hin')) as [Hl | [Hl _]];
        [|exact (Hih Hl)].
      apply Hki. rewrite cmp_opp, Hl. reflexivity.
    - intros j [<- | Hj] Ej; [exact (False_ind _ (Hih Ej))|]. apply Hmin; assumption. }
  rewrite first_of_runs_cons in Hin.
  destruct (keep_row cmp key prev i) eqn:Eb.
  - destruct Hin as [<- | Hin]; [apply Hhead, keep_row_true, Eb | apply Hrest, Hin].
  - apply Hrest, Hin.
Qed.

(** Every row present in [l] has a kept index. *)
Lemma first_of_runs_cover l prev x :
  In x l ->
  prev = Some (key x) \/
  exists h, In h (first_of_runs cmp key prev l) /\ key h = key x.
Proof.
  revert prev; induction l as [|i l IH]; intros prev Hin; [destruct Hin|].
  rewrite first_of_runs_cons.
  destruct Hin as [<- | Hin].
  - destruct (keep_row cmp key prev i) eqn:Eb.
    + right; exists i; split; [left|]; reflexivity.
    + left; apply keep_row_false, Eb.
  - destruct (IH (Some (key i)) Hin) as [Ei | [h [Hh Eh]]].
    + injection Ei as Ei. destruct (keep_row cmp key prev i) eqn:Eb.
      * right; exists i; split; [left; reflexivity | exact Ei].
      * left; rewrite <- Ei; apply keep_row_false, Eb.
    + right; exists h; split; [|exact Eh].
      destruct (keep_row cmp key prev i); [right|]; exact Hh.
Qed.

Lemma first_of_runs_sorted l prev :
  StronglySorted row_idx_lt l ->
  StronglySorted row_lt (first_of_runs cmp key prev l).
Proof.
  revert prev; induction l as [|i l IH]; intros prev Hs; [constructor|].
  rewrite first_of_runs_cons.
  inversion Hs as [|? ? Hs' Hf]; subst.
  assert (Hcons : StronglySorted row_lt (i :: first_of_runs cmp key (Some (key i)) l)).
  { constructor; [apply IH, Hs'|].
    apply Forall_forall; intros h Hh.
    assert (Hp : forall k, Some (key i) = Some k ->
              Forall (fun j => cmp k (key j) <> Gt) l).
    { intros k Hk; injection Hk as <-.
      eapply Forall_impl; [|exact Hf]. intros a [Ha | [Ha _]].
      - rewrite Ha; discriminate.
      - rewrite Ha, cmp_refl; discriminate. }
    destruct (first_of_runs_min _ _ _ Hs' Hp Hh) as [Hne _].
    rewrite Forall_forall in Hf.
    destruct (Hf h (first_of_runs_in _ _ _ Hh)) as [Hl | [Hl _]]; [exact Hl|].
    exfalso; apply Hne; rewrite Hl; reflexivity. }
  destruct (keep_row cmp key prev i); [exact Hcons | apply IH, Hs'].
Qed.

(** What [np.unique(..., return_index=True)] returns: one index per
    distinct row, the first one of that row, in ascending row order. *)
Lemma unique_return_index_spec n :
  let U := unique_return_index cmp key n in
  StronglySorted row_lt U /\
  (forall i, In i U -> (i < n)%nat /\ forall j, (j < i)%nat -> key j <> key i) /\
  (forall i, (i < n)%nat -> exists j, In j U /\ key j = key i).
Proof.
  unfold unique_return_index.
  pose proof (argsort_stable_sorted _ (seq_strongly_sorted 0 n)) as Hs.
  pose proof (argsort_stable_perm (seq 0 n)) as Hp.
  split; [apply first_of_runs_sorted, Hs|split].
  - intros i Hi.
    assert (Hin : In i (seq 0 n)).
    { apply (Permutation_in _ Hp), (first_of_runs_in _ _ _ Hi). }
    apply in_seq in Hin. split; [lia|].
    intros j Hj Ej.
    destruct (first_of_runs_min _ None _ Hs (fun k Hk => ltac:(discriminate)) Hi)
      as [_ Hmin].
    assert (Hjn : In j (argsort_stable cmp key (seq 0 n))).
    { apply (Permutation_in _ (Permutation_sym Hp)), in_seq. lia. }
    specialize (Hmin j Hjn Ej). lia.
  - intros i Hi.
    assert (Hin : In i (argsort_stable cmp key (seq 0 n))).
    { apply (Permutation_in _ (Permutation_sym Hp)), in_seq. lia. }
    destruct (first_of_runs_cover _ None _ Hin) as [Hc | Hc]; [discriminate | exact Hc].
Qed.

(** On rows that are already strictly ascending, the argsort is the
    identity and every row is kept. *)
Lemma argsort_stable_ascending s m :
  (forall a b, (s <= a)%nat -> (a < b)%nat -> (b < s + m)%nat -> row_lt a b) ->
  argsort_stable cmp key (seq s m) = seq s m.
Proof.
  revert s; induction m as [|m IH]; intros s Hasc; [reflexivity|].
  change (insert_stable cmp key s (argsort_stable cmp key (seq (S s) m)) = s :: seq (S s) m).
  rewrite IH by (intros a b Ha Hab Hb; apply Hasc; lia).
  destruct m as [|m]; [reflexivity|].
  simpl. rewrite (Hasc s (S s)) by lia. reflexivity.
Qed.

Lemma first_of_runs_ascending s m prev :
  (forall a, (s <= a)%nat -> (S a < s + m)%nat -> key a <> key (S a)) ->
  ((0 < m)%nat -> prev <> Some (key s)) ->
  first_of_runs cmp key prev (seq s m) = seq s m.
Proof.
  revert s prev; induction m as [|m IH]; intros s prev Hadj Hprev; [reflexivity|].
  change (first_of_runs cmp key prev (s :: seq (S s) m) = s :: seq (S s) m).
  rewrite first_of_runs_cons.
  destruct (keep_row cmp key prev s) eqn:Eb.
  - f_equal. apply IH.
    + intros a Ha Hb; apply Hadj; lia.
    + intros Hm Heq; injection Heq as Heq. apply (Hadj s); [lia | lia | exact Heq].
  - exfalso. apply (Hprev ltac:(lia)), keep_row_false, Eb.
Qed.

Lemma unique_return_index_ascending n :
  (forall a b, (a < b)%nat -> (b < n)%nat -> row_lt a b) ->
  unique_return_index cmp key n = seq 0 n.
Proof.
  intros Hasc. unfold unique_return_index.
  rewrite argsort_stable_ascending by (intros a b _ Hab Hb; apply Hasc; lia).
  apply first_of_runs_ascending; [|discriminate].
  intros a _ Ha Heq. apply (cmp_lt_neq _ _ (Hasc a (S a) ltac:(lia) ltac:(lia)) Heq).
Qed.

End UniqueRowsFacts.

(** ** The int32 row order *)

Lemma key_compare_eq a b : key_compare a b = Eq <-> a = b.
Proof.
  destruct a as [[a1 a2] a3], b as [[b1 b2] b3]; unfold key_compare.
  destruct (Z.compare_spec a1 b1); destruct (Z.compare_spec a2 b2);
    destruct (Z.compare_spec a3 b3); subst;
    split; intros Hk; try discriminate; try reflexivity;
    injection Hk; intros; lia.
Qed.

Lemma key_compare_opp a b : key_compare b a = CompOpp (key_compare a b).
Proof.
  destruct a as [[a1 a2] a3], b as [[b1 b2] b3]; unfold key_compare.
  rewrite (Z.compare_antisym a1 b1), (Z.compare_antisym a2 b2),
    (Z.compare_antisym a3 b3).
  destruct (Z.compare a1 b1); simpl; [destruct (Z.compare a2 b2)|..]; reflexivity.
Qed.

Lemma key_compare_lt a b :
  key_compare a b = Lt <->
  let '(a1, a2, a3) := a in let '(b1, b2, b3) := b in
  (a1 < b1 \/ (a1 = b1 /\ (a2 < b2 \/ (a2 = b2 /\ a3 < b3))))%Z.
Proof.
  destruct a as [[a1 a2] a3], b as [[b1 b2] b3]; unfold key_compare.
  destruct (Z.compare_spec a1 b1); destruct (Z.compare_spec a2 b2);
    destruct (Z.compare_spec a3 b3);
    split; intros Hk; try discriminate; try reflexivity; lia.
Qed.

Lemma key_compare_lt_trans a b c :
  key_compare a b = Lt -> key_compare b c = Lt -> key_compare a c = Lt.
Proof.
  rewrite !key_compare_lt.
  destruct a as [[a1 a2] a3], b as [[b1 b2] b3], c as [[c1 c2] c3]. lia.
Qed.

(** ** Lists *)

Lemma StronglySorted_nth {A} (rel : A -> A -> Prop) l d a b :
  StronglySorted rel l -> (a < b)%nat -> (b < length l)%nat ->
  rel (nth a l d) (nth b l d).
Proof.
  revert a b; induction l as [|x l IH]; intros a b Hs Hab Hb; simpl in *; [lia|].
  inversion Hs as [|? ? Hs' Hf]; subst.
  destruct a as [|a], b as [|b]; try lia.
  - rewrite Forall_forall in Hf. apply Hf, nth_In. lia.
  - apply IH; [exact Hs' | lia | lia].
Qed.

Lemma take_rows_all {A} (d : A) l : take_rows d l (seq 0 (length l)) = l.
Proof.
  unfold take_rows. induction l as [|x l IH]; [reflexivity|].
  simpl. f_equal. rewrite <- seq_shift, map_map. exact IH.
Qed.

Lemma length_take_rows {A} (d : A) l idx : length (take_rows d l idx) = length idx.
Proof. apply length_map. Qed.

(** ** voxel_downsample *)

Section VoxelDownsample.

Variable voxel_size : Q.
Variable points : list point.

Let keys := voxel_indices voxel_size points.
Let U := np_unique_return_index keys.

Lemma np_unique_return_index_spec :
  StronglySorted (fun i j => key_compare (row_key keys i) (row_key keys j) = Lt) U /\
  (forall i, In i U -> (i < length points)%nat /\
     forall j, (j < i)%nat -> row_key keys j <> row_key keys i) /\
  (forall i, (i < length points)%nat -> exists j, In j U /\ row_key keys j = row_key keys i).
Proof.
  unfold U, np_unique_return_index.
  replace (length points) with (length keys) by apply length_map.
  apply unique_return_index_spec;
    [apply key_compare_eq | apply key_compare_opp | apply key_compare_lt_trans].
Qed.

Lemma voxel_indices_take_rows :
  (forall i, In i U -> (i < length points)%nat) ->
  voxel_indices voxel_size (take_rows point0 points U) = map (row_key keys) U.
Proof.
  intros Hlt. unfold voxel_indices, take_rows. rewrite map_map.
  apply map_ext_in. intros i Hi. unfold row_key, keys, voxel_indices.
  rewrite nth_indep with (d' := voxel_index voxel_size point0)
    by (rewrite length_map; apply Hlt, Hi).
  rewrite map_nth. reflexivity.
Qed.

End VoxelDownsample.

(** C2 (amended): [voxel_downsample] keeps, for every distinct voxel key,
    exactly one point, the first point of that voxel in index order, and
    lists the kept points in ascending lexicographic order of their voxel
    keys (the order of [np.unique]), not in first-seen order. *)
Theorem voxel_downsample_first_per_voxel_sorted (points : list point)
    (colors : option (list color)) (voxel_size : Q) (Hv : 0 < voxel_size) :
  let keys := voxel_indices voxel_size points in
  let U := np_unique_return_index keys in
  voxel_downsample points colors voxel_size =
    (take_rows point0 points U, option_map (fun c => take_rows color0 c U) colors) /\
  StronglySorted (fun i j => key_compare (row_key keys i) (row_key keys j) = Lt) U /\
  (forall i, In i U -> (i < length points)%nat /\
     forall j, (j < i)%nat -> row_key keys j <> row_key keys i) /\
  (forall i, (i < length points)%nat ->
     exists j, In j U /\ row_key keys j = row_key keys i).
Proof.
  intros keys U. split; [reflexivity | apply np_unique_return_index_spec].
Qed.

Lemma voxel_downsample_first_per_voxel_sorted_witness :
  let points := [(1, 0, 0); (0, 0, 0); (1#2, 0, 0)]%Q in
  let keys := voxel_indices 1 points in
  let U := np_unique_return_index keys in
  0 < 1 /\
  (voxel_downsample points None 1 =
     (take_rows point0 points U, option_map (fun c => take_rows color0 c U) None) /\
   StronglySorted (fun i j => key_compare (row_key keys i) (row_key keys j) = Lt) U /\
   (forall i, In i U -> (i < length points)%nat /\
      forall j, (j < i)%nat -> row_key keys j <> row_key keys i) /\
   (forall i, (i < length points)%nat ->
      exists j, In j U /\ row_key keys j = row_key keys i)).
Proof.
  intros points keys U.
  split; [reflexivity|].
  exact (voxel_downsample_first_per_voxel_sorted points None 1 ltac:(reflexivity)).
Defined.

(** C2 (counterexample): the voxel of the first point is seen first, yet
    [voxel_downsample] lists it second; the first-seen order of the claim
    differs from the code's output. *)
Lemma voxel_downsample_not_first_seen_order :
  fst (voxel_downsample [(1, 0, 0); (0, 0, 0)]%Q None 1) = [(0, 0, 0); (1, 0, 0)]%Q /\
  voxel_downsample [(1, 0, 0); (0, 0, 0)]%Q None 1 <>
  voxel_downsample_first_seen [(1, 0, 0); (0, 0, 0)]%Q None 1.
Proof.
  split; [reflexivity|]. vm_compute. intros H; discriminate H.
Qed.

(** C3: voxel dedup is idempotent: reducing an already reduced buffer
    (points and, when present, colors) with the same voxel size gives the
    same buffer back. *)
Theorem voxel_downsample_idempotent (points : list point)
    (colors : option (list color)) (voxel_size : Q) (Hv : 0 < voxel_size) :
  let '(points1, colors1) := voxel_downsample points colors voxel_size in
  voxel_downsample points1 colors1 voxel_size = (points1, colors1).
Proof.
  destruct (np_unique_return_index_spec voxel_size points) as [Hs [Hfirst _]].
  set (keys := voxel_indices voxel_size points) in *.
  set (U := np_unique_return_index keys) in *.
  assert (Hkeys : voxel_indices voxel_size (take_rows point0 points U) =
                  map (row_key keys) U).
  { apply voxel_indices_take_rows. intros i Hi; apply Hfirst, Hi. }
  assert (HU : np_unique_return_index (map (row_key keys) U) = seq 0 (length U)).
  { unfold np_unique_return_index. rewrite length_map.
    apply unique_return_index_ascending; [apply key_compare_eq|].
    intros a b Hab Hb. unfold row_lt.
    unfold row_key at 1 3.
    rewrite (nth_indep _ vkey0 (row_key keys 0%nat)) by (rewrite length_map; lia).
    rewrite (nth_indep _ vkey0 (row_key keys 0%nat)) by (rewrite length_map; lia).
    rewrite !map_nth.
    exact (StronglySorted_nth _ U 0%nat a b Hs Hab Hb). }
  unfold voxel_downsample at 1. fold keys. fold U.
  unfold voxel_downsample. rewrite Hkeys, HU. f_equal.
  - rewrite <- (length_take_rows point0 points U). apply take_rows_all.
  - destruct colors as [c|]; simpl; [|reflexivity].
    f_equal. rewrite <- (length_take_rows color0 c U). apply take_rows_all.
Qed.

Lemma voxel_downsample_idempotent_witness :
  0 < 1 /\
  (let '(points1, colors1) :=
     voxel_downsample [(1, 0, 0); (0, 0, 0); (1#2, 0, 0)]%Q
       (Some [(1, 0, 0); (0, 1, 0); (0, 0, 1)]%Q) 1 in
   voxel_downsample points1 colors1 1 = (points1, colors1)).
Proof.
  split; [reflexivity|].
  exact (voxel_downsample_idempotent _ _ 1 ltac:(reflexivity)).
Defined.

(** ** Classification colors *)

Lemma classification_table_unit kv :
  In kv CLASSIFICATION_COLORS ->
  let '(r, g, b) := snd kv in (0 <= r <= 1 /\ 0 <= g <= 1 /\ 0 <= b <= 1)%Q.
Proof.
  intros Hin. simpl in Hin.
  repeat (destruct Hin as [<- | Hin]; [simpl; unfold Qle; simpl; lia|]).
  destruct Hin.
Qed.

Lemma classification_table_lookup cls c :
  In (cls, c) CLASSIFICATION_COLORS -> classification_color cls = c.
Proof.
  intros Hin. simpl in Hin.
  repeat (destruct Hin as [Hin | Hin]; [injection Hin as <- <-; reflexivity|]).
  destruct Hin.
Qed.

Lemma classification_color_cases cls :
  (exists kv, In kv CLASSIFICATION_COLORS /\ fst kv = cls /\
              classification_color cls = snd kv) \/
  ((forall c, ~ In (cls, c) CLASSIFICATION_COLORS) /\
   classification_color cls = default_gray).
Proof.
  unfold classification_color, dict_get.
  destruct (find (fun kv => Z.eqb (fst kv) cls) CLASSIFICATION_COLORS) as [[k v]|] eqn:E.
  - left. exists (k, v).
    destruct (find_some _ _ E) as [Hin Hk]. apply Z.eqb_eq in Hk.
    repeat split; [exact Hin | exact Hk].
  - right. split; [|reflexivity].
    intros c Hin. apply (find_none _ _ E) in Hin. simpl in Hin.
    rewrite Z.eqb_refl in Hin; discriminate.
Qed.

(** C4: the classification colorizer is total: every integer code gets an
    RGB triple with components in [0,1]; a code of the table gets the
    table's color, any other code the gray default.  Scenario D: codes 6 and
    999 get the building red and the gray default. *)
Theorem classification_color_total (cls : Z) :
  (let '(r, g, b) := classification_color cls in
   0 <= r <= 1 /\ 0 <= g <= 1 /\ 0 <= b <= 1) /\
  (forall c, In (cls, c) CLASSIFICATION_COLORS -> classification_color cls = c) /\
  ((forall c, ~ In (cls, c) CLASSIFICATION_COLORS) ->
   classification_color cls = default_gray) /\
  classification_color 6 = (9#10, 1#10, 1#10) /\
  classification_color 999 = (1#2, 1#2, 1#2) /\
  urban_colors (mk_las [point0; point0] None (Some [6; 999]%Z)) =
    Some [(9#10, 1#10, 1#10); (1#2, 1#2, 1#2)].
Proof.
  split; [|split; [apply classification_table_lookup|split; [|repeat split]]].
  - destruct (classification_color_cases cls) as [[kv [Hin [_ ->]]] | [_ ->]].
    + apply classification_table_unit, Hin.
    + unfold default_gray, Qle; simpl; lia.
  - intros Hnone.
    destruct (classification_color_cases cls) as [[[k v] [Hin [Hk _]]] | [_ ->]];
      [|reflexivity].
    simpl in Hk; subst k. exfalso; exact (Hnone v Hin).
Qed.

Lemma classification_color_total_witness :
  (forall c, ~ In (999%Z, c) CLASSIFICATION_COLORS) /\
  classification_color 999 = default_gray.
Proof.
  assert (Hnone : forall c, ~ In (999%Z, c) CLASSIFICATION_COLORS).
  { intros c Hin. simpl in Hin.
    repeat (destruct Hin as [Hin | Hin]; [discriminate Hin|]). exact Hin. }
  split; [exact Hnone|].
  exact (proj1 (proj2 (proj2 (classification_color_total 999))) Hnone).
Defined.

(** C8 (counterexample): a file with an explicit RGB channel (pure red)
    and a classification channel (ground): [load_urban_las] returns the
    classification color, not the stored color. *)
Lemma urban_colors_override_rgb :
  let las := mk_las [point0] (Some [(65535, 0, 0)%Z]) (Some [2%Z]) in
  urban_colors las = Some [(6#10, 4#10, 2#10)] /\
  urban_colors las <> option_map rgb_colors (las_rgb las).
Proof.
  split; [reflexivity|]. vm_compute. intros H; discriminate H.
Qed.

(** C8 (amended): [load_urban_las] never reads the RGB channel: its colors
    are the classification colors when a classification channel is
    present (stored RGB or not) and absent otherwise; [PointCloudLoader.load]
    reads the RGB channel and never the classification channel. *)
Theorem urban_colors_from_classification_only :
  (forall las, urban_colors las =
     option_map (map classification_color) (las_classification las)) /\
  (forall choice max_points voxel xyz rgb rgb' cls,
     load_urban_las choice max_points voxel (mk_las xyz rgb cls) =
     load_urban_las choice max_points voxel (mk_las xyz rgb' cls)) /\
  (forall choice max_points voxel xyz rgb cls cls',
     load choice max_points voxel (mk_las xyz rgb cls) =
     load choice max_points voxel (mk_las xyz rgb cls')).
Proof.
  split; [|split]; [|reflexivity..].
  intros [xyz rgb [cls|]]; reflexivity.
Qed.

(** ** Camera *)

Lemma np_clip_bounds x lo hi : lo <= hi -> lo <= np_clip x lo hi <= hi.
Proof.
  intros Hlh. unfold np_clip. split.
  - apply Q.min_glb; [apply Q.le_max_r | exact Hlh].
  - apply Q.le_min_r.
Qed.

Lemma rotate_elevation_bounds c da de :
  -89 <= elevation (rotate c da de) <= 89.
Proof. apply np_clip_bounds. unfold Qle; simpl; lia. Qed.

Lemma rotate_all_cons c d ds :
  rotate_all c (d :: ds) = rotate_all (rotate c (fst d) (snd d)) ds.
Proof. reflexivity. Qed.

(** C5 (counterexample): from the default camera, [rotate(0, 200)] leaves
    the elevation at the bound 89 itself. *)
Lemma rotate_elevation_reaches_bound :
  elevation (rotate_all default_camera [(0, 200)]) = 89.
Proof. reflexivity. Qed.

(** C5 (amended): after any sequence of [rotate] calls from the default
    camera the elevation lies in the closed interval [-89, 89] (the bounds
    are reached), and the azimuth is never clamped: it is the default 45
    plus the rotation speed 0.5 times the sum of the azimuth deltas. *)
Theorem rotate_all_elevation_closed (deltas : list (Q * Q)) :
  let c := rotate_all default_camera deltas in
  -89 <= elevation c <= 89 /\
  azimuth c == 45 + fold_right Qplus 0 (map fst deltas) * (1#2).
Proof.
  assert (Hgen : forall c ds, rotation_speed c = 1#2 ->
            ((ds <> [] \/ -89 <= elevation c <= 89) ->
             -89 <= elevation (rotate_all c ds) <= 89) /\
            rotation_speed (rotate_all c ds) = 1#2 /\
            azimuth (rotate_all c ds) ==
              azimuth c + fold_right Qplus 0 (map fst ds) * (1#2)).
  { intros c ds; revert c; induction ds as [|d ds IH]; intros c Hrs.
    - simpl. split; [intros [H|H]; [congruence|exact H]|split; [exact Hrs|ring]].
    - rewrite rotate_all_cons.
      destruct (IH (rotate c (fst d) (snd d)) Hrs) as [He [Hr Ha]].
      split; [intros _; apply He; right; apply rotate_elevation_bounds|].
      split; [exact Hr|].
      rewrite Ha. simpl. rewrite Hrs. ring. }
  destruct (Hgen default_camera deltas eq_refl) as [He [_ Ha]].
  split; [apply He; right; unfold Qle; simpl; lia | exact Ha].
Qed.

(** [zoom] keeps the distance in [1, 1000]. *)
Lemma zoom_distance_bounds c delta : 1 <= distance (zoom c delta) <= 1000.
Proof.
  simpl. split; [apply Q.le_max_l|].
  apply Q.max_lub; [unfold Qle; simpl; lia | apply Q.le_min_r].
Qed.

(** C6 (code bug): [load_points] sets [distance = 1.5 * max extent]
    without the [1, 1000] clamp that [zoom] applies: two points 1000 m
    apart put the camera at distance 1500. *)
Lemma load_points_distance_unclamped :
  exists r, load_points default_camera [(0, 0, 0); (1000, 0, 0)]%Q None = Some r /\
            distance (r_camera r) == 1500 /\ 1000 < distance (r_camera r).
Proof.
  eexists; split; [reflexivity|]. split; reflexivity.
Qed.

(** ** The loader's downsampling gate *)

(** C7 (counterexample): [downsample_voxel = -1] is truthy, so the
    downsampling step runs and merges the two points of voxel -1. *)
Lemma downsample_step_negative_not_noop :
  downsample_step (Some (-1)) [(1#10, 0, 0); (2#10, 0, 0)]%Q None =
    ([(1#10, 0, 0)]%Q, None) /\
  downsample_step (Some (-1)) [(1#10, 0, 0); (2#10, 0, 0)]%Q None <>
    ([(1#10, 0, 0); (2#10, 0, 0)]%Q, None).
Proof.
  split; [reflexivity|]. vm_compute. intros H; discriminate H.
Qed.

(** C7 (amended): a voxel size of [None] or 0 disables downsampling: the
    step returns points and colors unchanged; a negative voxel size is not
    treated as disabled: [voxel_downsample] runs with it. *)
Theorem downsample_step_disabled_at_zero (points : list point)
    (colors : option (list color)) :
  downsample_step None points colors = (points, colors) /\
  (forall v, v == 0 -> downsample_step (Some v) points colors = (points, colors)) /\
  (forall v, v < 0 ->
     downsample_step (Some v) points colors = voxel_downsample points colors v).
Proof.
  split; [reflexivity|split]; intros v Hv; simpl.
  - apply Qeq_bool_iff in Hv. rewrite Hv. reflexivity.
  - destruct (Qeq_bool v 0) eqn:E; [|reflexivity].
    apply Qeq_bool_iff in E. rewrite E in Hv. discriminate Hv.
Qed.

Lemma downsample_step_disabled_at_zero_witness :
  (0 == 0 /\ downsample_step (Some 0) [(1#10, 0, 0)]%Q None = ([(1#10, 0, 0)]%Q, None)) /\
  (-1 < 0 /\ downsample_step (Some (-1)) [(1#10, 0, 0)]%Q None =
              voxel_downsample [(1#10, 0, 0)]%Q None (-1)).
Proof.
  destruct (downsample_step_disabled_at_zero [(1#10, 0, 0)]%Q None) as [_ [H0 Hn]].
  split; split; [reflexivity | apply H0; reflexivity | reflexivity | apply Hn; reflexivity].
Defined.

(** ** Input callbacks *)

(** C9: press the left button at (100, 100), move to (110, 90), release:
    the camera gets exactly one call, [rotate(10, 10)] (the y delta is
    negated), and the renderer is back to not dragging. *)
Theorem drag_rotates_once (v : viewer (list camera_call)) :
  let v' := handle_events v
              [MouseButtonEv MOUSE_BUTTON_LEFT GLFW_PRESS 100 100;
               CursorPosEv 110 90;
               MouseButtonEv MOUSE_BUTTON_LEFT GLFW_RELEASE 110 90] in
  v_camera v' = v_camera v ++ [CallRotate 10 10] /\
  mouse_pressed v' = false /\ mouse_button v' = None.
Proof.
  destruct v; repeat split; reflexivity.
Qed.

(** ** Height colormap *)

Lemma np_clip_unit x : 0 <= np_clip x 0 1 <= 1.
Proof. apply np_clip_bounds. unfold Qle; simpl; lia. Qed.

Lemma colormap_color_unit n :
  let '(r, g, b) := colormap_color n in 0 <= r <= 1 /\ 0 <= g <= 1 /\ 0 <= b <= 1.
Proof. simpl. repeat split; apply np_clip_unit. Qed.

Lemma Qmin_choice x y : Qmin x y = x \/ Qmin x y = y.
Proof. unfold Qmin, GenericMinMax.gmin. destruct (x ?= y); auto. Qed.

Lemma Qmax_choice x y : Qmax x y = x \/ Qmax x y = y.
Proof. unfold Qmax, GenericMinMax.gmax. destruct (x ?= y); auto. Qed.

Lemma fold_left_choice (f : Q -> Q -> Q) l x :
  (forall a b, f a b = a \/ f a b = b) -> In (fold_left f l x) (x :: l).
Proof.
  intros Hf. revert x; induction l as [|y l IH]; intros x; simpl; [auto|].
  destruct (IH (f x y)) as [E | E].
  - destruct (Hf x y) as [E' | E']; rewrite <- E, E'; auto.
  - auto.
Qed.

(** C10: on a non-empty heights array the height colormap is total: one
    color per height, every component in [0,1]; when all heights are equal
    every normalized value is 0 (no division).  Hence [load_points] with
    [colors=None] on a non-empty cloud stores a color array as long as the
    points. *)
Theorem height_colormap_total (heights : list Q) (Hne : heights <> []) :
  (exists colors,
     height_colormap heights = Some colors /\
     length colors = length heights /\
     Forall (fun c => let '(r, g, b) := c in
                      0 <= r <= 1 /\ 0 <= g <= 1 /\ 0 <= b <= 1) colors /\
     ((forall h, In h heights -> h == hd 0 heights) ->
      colors = map (fun _ => colormap_color 0) heights)) /\
  (forall cam (points : list point), map pz points = heights ->
     exists r, load_points cam points None = Some r /\
               length (r_colors r) = length points /\
               Some (r_colors r) = height_colormap heights).
Proof.
  destruct heights as [|h0 hs]; [congruence|].
  assert (Hcm : exists colors,
     height_colormap (h0 :: hs) = Some colors /\
     length colors = length (h0 :: hs) /\
     Forall (fun c => let '(r, g, b) := c in
                      0 <= r <= 1 /\ 0 <= g <= 1 /\ 0 <= b <= 1) colors /\
     ((forall h, In h (h0 :: hs) -> h == hd 0 (h0 :: hs)) ->
      colors = map (fun _ => colormap_color 0) (h0 :: hs))).
  { set (normalized := if Qlt_le_dec (list_min h0 hs) (list_max h0 hs)
          then map (fun h => (h - list_min h0 hs) / (list_max h0 hs - list_min h0 hs)) (h0 :: hs)
          else map (fun _ => 0) (h0 :: hs)).
    exists (map colormap_color normalized). split; [reflexivity|]. split.
    - unfold normalized; destruct (Qlt_le_dec _ _); rewrite !length_map; reflexivity.
    - split.
      + apply Forall_forall. intros c Hc. apply in_map_iff in Hc.
        destruct Hc as [n [<- _]]. apply colormap_color_unit.
      + intros Heq. unfold normalized.
        destruct (Qlt_le_dec (list_min h0 hs) (list_max h0 hs)) as [Hlt|_].
        * exfalso.
          assert (Hmin : list_min h0 hs == h0).
          { apply Heq, (fold_left_choice Qmin hs h0 Qmin_choice). }
          assert (Hmax : list_max h0 hs == h0).
          { apply Heq, (fold_left_choice Qmax hs h0 Qmax_choice). }
          rewrite Hmin, Hmax in Hlt. apply (Qlt_irrefl h0), Hlt.
        * rewrite map_map. reflexivity. }
  split; [exact Hcm|].
  intros cam points Hz.
  destruct Hcm as [colors [Hc [Hlen _]]].
  destruct points as [|p ps]; [discriminate|].
  unfold load_points. rewrite Hz, Hc. simpl.
  eexists; split; [reflexivity|]. simpl. split; [|reflexivity].
  rewrite Hlen, <- Hz, length_map. reflexivity.
Qed.

Lemma height_colormap_total_witness :
  [1; 1; 1] <> [] /\
  height_colormap [1; 1; 1] = Some (map (fun _ => colormap_color 0) [1; 1; 1]).
Proof.
  split; [discriminate|].
  destruct (height_colormap_total [1; 1; 1] ltac:(discriminate))
    as [[colors [Hc [_ [_ Heq]]]] _].
  rewrite Hc, Heq; [reflexivity|].
  intros h Hh. simpl in Hh. repeat (destruct Hh as [<- | Hh]; [reflexivity|]).
  destruct Hh.
Defined.

(** ** Statistical outlier removal *)

(** C1 (code bug): with fewer points than [nb_neighbors + 1] (here 3
    points, [nb_neighbors = 20]) every kd-tree row holds infinite
    distances, every mean distance is [inf], [std] is NaN, the threshold
    [inf + 2 * NaN] is NaN and [mean_distances < threshold] is false
    everywhere: all points and colors are removed instead of being returned
    unchanged. *)
Lemma remove_outliers_few_points_removes_all :
  let points := [(0, 0, 0); (1, 0, 0); (0, 1, 0)]%float in
  let colors := [(1, 0, 0); (0, 1, 0); (0, 0, 1)]%float in
  Outliers.remove_outliers points (Some colors) 20 2%float = Some ([], Some []) /\
  Outliers.remove_outliers points (Some colors) 20 2%float <>
    Some (points, Some colors).
Proof.
  split; [vm_compute; reflexivity|]. vm_compute. intros H; discriminate H.
Qed.

(** ** Sample evaluations *)

Example voxel_downsample_ex1 :
  fst (voxel_downsample [(1, 0, 0); (0, 0, 0); (1#2, 0, 0)]%Q None 1)
  = [(0, 0, 0); (1, 0, 0)]%Q.
Proof. reflexivity. Qed.

Example remove_outliers_keeps_regular_points :
  Outliers.remove_outliers (A := color)
    [(0, 0, 0); (1, 0, 0); (2, 0, 0); (10, 0, 0)]%float None 1 2%float =
  Some ([(0, 0, 0); (1, 0, 0); (2, 0, 0); (10, 0, 0)]%float, None).
Proof. vm_compute. reflexivity. Qed.

(* ================================================================== *)
(** * Further properties of the loader, the viewer and its callbacks *)

(** ** More on voxel_downsample *)

Lemma StronglySorted_key_NoDup (f : nat -> vkey) l :
  StronglySorted (fun i j => key_compare (f i) (f j) = Lt) l -> NoDup (map f l).
Proof.
  induction l as [|x l IH]; intros Hs; simpl; [constructor|].
  inversion Hs as [|? ? Hs' Hf]; subst. constructor; [|apply IH, Hs'].
  intros Hin. apply in_map_iff in Hin as [y [Hy Hyl]].
  rewrite Forall_forall in Hf. specialize (Hf y Hyl).
  rewrite Hy, (proj2 (key_compare_eq _ _) eq_refl) in Hf. discriminate.
Qed.

Lemma row_key_voxel voxel_size points i :
  (i < length points)%nat ->
  row_key (voxel_indices voxel_size points) i = voxel_index voxel_size (nth i points point0).
Proof.
  intros Hi. unfold row_key, voxel_indices.
  rewrite nth_indep with (d' := voxel_index voxel_size point0) by (rewrite length_map; exact Hi).
  apply map_nth.
Qed.

(** [voxel_downsample] never adds points: it keeps at most one point per
    input point, at least one point of a non-empty cloud, every kept point
    is an input point, and the kept points lie in pairwise distinct
    voxels. *)
Theorem voxel_downsample_shrinks (points : list point)
    (colors : option (list color)) (voxel_size : Q) :
  let out := fst (voxel_downsample points colors voxel_size) in
  (length out <= length points)%nat /\
  (points <> [] -> out <> []) /\
  incl out points /\
  NoDup (voxel_indices voxel_size out).
Proof.
  destruct (np_unique_return_index_spec voxel_size points) as [Hs [Hfirst Hcover]].
  set (keys := voxel_indices voxel_size points) in *.
  set (U := np_unique_return_index keys) in *.
  assert (Hlt : forall i, In i U -> (i < length points)%nat) by (intros i Hi; apply Hfirst, Hi).
  simpl. fold keys. fold U. split; [|split; [|split]].
  - rewrite length_take_rows, <- (length_seq (length points) 0).
    apply NoDup_incl_length.
    + apply NoDup_map_inv with (f := row_key keys), StronglySorted_key_NoDup, Hs.
    + intros i Hi. apply in_seq. specialize (Hlt i Hi). lia.
  - intros Hne. destruct points as [|p ps]; [contradiction|].
    destruct (Hcover 0%nat ltac:(simpl; lia)) as [j [Hj _]].
    unfold take_rows. destruct U; [contradiction | discriminate].
  - intros q Hq. unfold take_rows in Hq. apply in_map_iff in Hq as [i [<- Hi]].
    apply nth_In, Hlt, Hi.
  - rewrite voxel_indices_take_rows by exact Hlt. apply StronglySorted_key_NoDup, Hs.
Qed.

(** When every point of a non-empty cloud falls in the voxel of the first
    one, [voxel_downsample] returns that first point alone, with its
    color. *)
Theorem voxel_downsample_single_voxel (p0 : point) (ps : list point)
    (colors : option (list color)) (voxel_size : Q)
    (Hsame : forall q, In q ps -> voxel_index voxel_size q = voxel_index voxel_size p0) :
  voxel_downsample (p0 :: ps) colors voxel_size =
    ([p0], option_map (fun c => [nth 0 c color0]) colors).
Proof.
  destruct (np_unique_return_index_spec voxel_size (p0 :: ps)) as [Hs [Hfirst Hcover]].
  set (points := p0 :: ps) in *.
  set (keys := voxel_indices voxel_size points) in *.
  set (U := np_unique_return_index keys) in *.
  assert (Hall : forall i, (i < length points)%nat -> row_key keys i = row_key keys 0%nat).
  { intros i Hi. unfold keys. rewrite !row_key_voxel by (simpl in *; lia).
    destruct i as [|i]; [reflexivity|]. unfold points in *; simpl nth.
    apply Hsame, nth_In. simpl in Hi. lia. }
  assert (Hzero : forall i, In i U -> i = 0%nat).
  { intros i Hi. destruct (Hfirst i Hi) as [Hil Hmin].
    destruct i as [|i]; [reflexivity|].
    exfalso. apply (Hmin 0%nat ltac:(lia)). symmetry. apply Hall, Hil. }
  assert (HU : U = [0%nat]).
  { destruct (Hcover 0%nat ltac:(simpl; lia)) as [j [Hj _]].
    pose proof (NoDup_map_inv _ _ (StronglySorted_key_NoDup _ _ Hs)) as Hnd.
    destruct U as [|a [|b U']]; [contradiction| |].
    - rewrite (Hzero a (or_introl eq_refl)). reflexivity.
    - exfalso. inversion Hnd as [|? ? Hna _]; subst. apply Hna.
      rewrite (Hzero a (or_introl eq_refl)), <- (Hzero b (or_intror (or_introl eq_refl))).
      left. reflexivity. }
  unfold voxel_downsample. fold keys. fold U. rewrite HU. reflexivity.
Qed.

Lemma voxel_downsample_single_voxel_witness :
  (forall q, In q [(3, 4, 5); (99, 0, 50); (10, 10, 10)]%Q ->
     voxel_index 100 q = voxel_index 100 (1, 2, 3)%Q) /\
  voxel_downsample ((1, 2, 3) :: [(3, 4, 5); (99, 0, 50); (10, 10, 10)])%Q None 100 =
    ([(1, 2, 3)%Q], None).
Proof.
  assert (H : forall q, In q [(3, 4, 5); (99, 0, 50); (10, 10, 10)]%Q ->
     voxel_index 100 q = voxel_index 100 (1, 2, 3)%Q).
  { intros q Hq. simpl in Hq.
    repeat destruct Hq as [<- | Hq]; [reflexivity..|contradiction]. }
  split; [exact H|].
  exact (voxel_downsample_single_voxel _ _ None 100 H).
Defined.

(** ** Row selection through the loader's steps *)

Lemma nth_take_rows {A} (d : A) l U i :
  (i < length U)%nat -> nth i (take_rows d l U) d = nth (nth i U 0%nat) l d.
Proof.
  intros Hi. unfold take_rows.
  rewrite nth_indep with (d' := (fun k => nth k l d) 0%nat) by (rewrite length_map; exact Hi).
  apply (map_nth (fun k => nth k l d)).
Qed.

Lemma take_rows_compose {A} (d : A) l U I :
  (forall i, In i I -> (i < length U)%nat) ->
  take_rows d (take_rows d l U) I = take_rows d l (map (fun i => nth i U 0%nat) I).
Proof.
  intros HI. unfold take_rows at 1 3. rewrite map_map.
  apply map_ext_in. intros i Hi. apply nth_take_rows, HI, Hi.
Qed.

Lemma in_compose_bound (U I : list nat) n :
  (forall i, In i U -> (i < n)%nat) -> (forall i, In i I -> (i < length U)%nat) ->
  forall i, In i (map (fun i => nth i U 0%nat) I) -> (i < n)%nat.
Proof.
  intros HU HI i Hi. apply in_map_iff in Hi as [j [<- Hj]].
  apply HU, nth_In, HI, Hj.
Qed.

Lemma downsample_step_selects (downsample_voxel : option Q) (points : list point)
    (colors : option (list color)) :
  (forall c, colors = Some c -> length c = length points) ->
  exists I, (forall i, In i I -> (i < length points)%nat) /\
    downsample_step downsample_voxel points colors =
      (take_rows point0 points I, option_map (fun c => take_rows color0 c I) colors).
Proof.
  intros Hal.
  assert (Hid : exists I, (forall i, In i I -> (i < length points)%nat) /\
      (points, colors) =
      (take_rows point0 points I, option_map (fun c => take_rows color0 c I) colors)).
  { exists (seq 0 (length points)). split; [intros i Hi; apply in_seq in Hi; lia|].
    rewrite take_rows_all. destruct colors as [c|]; [|reflexivity].
    simpl. rewrite <- (Hal c eq_refl), take_rows_all. reflexivity. }
  unfold downsample_step. destruct downsample_voxel as [v|]; [|exact Hid].
  destruct (truthy_float (Some v)); [|exact Hid].
  destruct (np_unique_return_index_spec v points) as [_ [Hfirst _]].
  eexists; split; [intros i Hi; apply Hfirst, Hi | reflexivity].
Qed.

Lemma sample_step_selects (choice : nat -> nat -> list nat) (max_points : option nat)
    (points : list point) (colors : option (list color)) :
  (forall n m, (m < n)%nat -> forall i, In i (choice n m) -> (i < n)%nat) ->
  (forall c, colors = Some c -> length c = length points) ->
  exists I, (forall i, In i I -> (i < length points)%nat) /\
    sample_step choice max_points points colors =
      (take_rows point0 points I, option_map (fun c => take_rows color0 c I) colors).
Proof.
  intros Hch Hal.
  assert (Hid : exists I, (forall i, In i I -> (i < length points)%nat) /\
      (points, colors) =
      (take_rows point0 points I, option_map (fun c => take_rows color0 c I) colors)).
  { exists (seq 0 (length points)). split; [intros i Hi; apply in_seq in Hi; lia|].
    rewrite take_rows_all. destruct colors as [c|]; [|reflexivity].
    simpl. rewrite <- (Hal c eq_refl), take_rows_all. reflexivity. }
  unfold sample_step. destruct max_points as [m|]; [|exact Hid].
  destruct (truthy_int (Some m) && (m <? length points)%nat) eqn:Eb; [|exact Hid].
  apply andb_true_iff in Eb as [_ Eb]. apply Nat.ltb_lt in Eb.
  eexists; split; [apply (Hch _ _ Eb) | reflexivity].
Qed.

Lemma load_steps_select (choice : nat -> nat -> list nat) (max_points : option nat)
    (downsample_voxel : option Q) (points : list point) (colors : option (list color)) :
  (forall n m, (m < n)%nat -> forall i, In i (choice n m) -> (i < n)%nat) ->
  (forall c, colors = Some c -> length c = length points) ->
  exists idx, (forall i, In i idx -> (i < length points)%nat) /\
    (let '(points', colors') := downsample_step downsample_voxel points colors in
     sample_step choice max_points points' colors') =
      (take_rows point0 points idx, option_map (fun c => take_rows color0 c idx) colors).
Proof.
  intros Hch Hal.
  destruct (downsample_step_selects downsample_voxel points colors Hal) as [U [HU ->]].
  destruct (sample_step_selects choice max_points (take_rows point0 points U)
              (option_map (fun c => take_rows color0 c U) colors) Hch) as [I [HI ->]].
  { intros c' Hc'. destruct colors as [c|]; [|discriminate].
    injection Hc' as <-. rewrite !length_take_rows. reflexivity. }
  rewrite length_take_rows in HI.
  exists (map (fun i => nth i U 0%nat) I). split; [apply (in_compose_bound U I _ HU HI)|].
  rewrite take_rows_compose by exact HI. f_equal.
  destruct colors as [c|]; [|reflexivity]. simpl. f_equal. apply take_rows_compose, HI.
Qed.

(** [PointCloudLoader.load] selects rows: with a sampler that returns
    in-range indices and a color channel as long as the XYZ channel, the
    loaded points and colors are the input rows at one common index list,
    so every color stays attached to its point. *)
Theorem load_selects_rows (choice : nat -> nat -> list nat) (max_points : option nat)
    (downsample_voxel : option Q) (las : las_file)
    (Hchoice : forall n m, (m < n)%nat -> forall i, In i (choice n m) -> (i < n)%nat)
    (Hrgb : forall rgb, las_rgb las = Some rgb -> length rgb = length (las_xyz las)) :
  exists idx, (forall i, In i idx -> (i < length (las_xyz las))%nat) /\
    load choice max_points downsample_voxel las =
      (take_rows point0 (las_xyz las) idx,
       option_map (fun rgb => take_rows color0 (rgb_colors rgb) idx) (las_rgb las)).
Proof.
  destruct (load_steps_select choice max_points downsample_voxel (las_xyz las)
              (option_map rgb_colors (las_rgb las)) Hchoice) as [idx [Hidx Heq]].
  { intros c Hc. destruct (las_rgb las) as [rgb|] eqn:E; [|discriminate].
    injection Hc as <-. unfold rgb_colors. rewrite length_map. apply Hrgb; reflexivity. }
  exists idx. split; [exact Hidx|]. unfold load. rewrite Heq.
  destruct (las_rgb las); reflexivity.
Qed.

Lemma load_selects_rows_witness :
  let las := mk_las [(0, 0, 0); (1#2, 0, 0); (5, 0, 0)]%Q
                    (Some [(1, 2, 3); (4, 5, 6); (7, 8, 9)]%Z) None in
  (forall n m, (m < n)%nat -> forall i, In i (seq 0 m) -> (i < n)%nat) /\
  (forall rgb, las_rgb las = Some rgb -> length rgb = length (las_xyz las)) /\
  exists idx, (forall i, In i idx -> (i < length (las_xyz las))%nat) /\
    load (fun _ m => seq 0 m) (Some 1%nat) (Some 1) las =
      (take_rows point0 (las_xyz las) idx,
       option_map (fun rgb => take_rows color0 (rgb_colors rgb) idx) (las_rgb las)).
Proof.
  intros las.
  assert (Hch : forall n m, (m < n)%nat -> forall i, In i (seq 0 m) -> (i < n)%nat).
  { intros n m Hm i Hi. apply in_seq in Hi. lia. }
  assert (Hal : forall rgb, las_rgb las = Some rgb -> length rgb = length (las_xyz las)).
  { intros rgb E. injection E as <-. reflexivity. }
  split; [exact Hch|]. split; [exact Hal|].
  exact (load_selects_rows (fun _ m => seq 0 m) (Some 1%nat) (Some 1) las Hch Hal).
Defined.

(** [load_urban_las] selects rows the same way: the classification colors
    it returns are those of the returned points' input rows. *)
Theorem load_urban_las_selects_rows (choice : nat -> nat -> list nat)
    (max_points : option nat) (downsample_voxel : option Q) (las : las_file)
    (Hchoice : forall n m, (m < n)%nat -> forall i, In i (choice n m) -> (i < n)%nat)
    (Hcls : forall cls, las_classification las = Some cls ->
            length cls = length (las_xyz las)) :
  exists idx, (forall i, In i idx -> (i < length (las_xyz las))%nat) /\
    load_urban_las choice max_points downsample_voxel las =
      (take_rows point0 (las_xyz las) idx,
       option_map (fun cls => take_rows color0 (map classification_color cls) idx)
         (las_classification las)).
Proof.
  destruct (load_steps_select choice max_points downsample_voxel (las_xyz las)
              (urban_colors las) Hchoice) as [idx [Hidx Heq]].
  { intros c Hc. unfold urban_colors in Hc.
    destruct (las_classification las) as [cls|] eqn:E; [|discriminate].
    injection Hc as <-. rewrite length_map. apply Hcls; reflexivity. }
  exists idx. split; [exact Hidx|]. unfold load_urban_las. rewrite Heq.
  unfold urban_colors. destruct (las_classification las); reflexivity.
Qed.

Lemma load_urban_las_selects_rows_witness :
  let las := mk_las [(0, 0, 0); (1#2, 0, 0); (5, 0, 0)]%Q None (Some [2; 6; 99]%Z) in
  (forall n m, (m < n)%nat -> forall i, In i (seq 0 m) -> (i < n)%nat) /\
  (forall cls, las_classification las = Some cls -> length cls = length (las_xyz las)) /\
  exists idx, (forall i, In i idx -> (i < length (las_xyz las))%nat) /\
    load_urban_las (fun _ m => seq 0 m) (Some 1%nat) (Some 1) las =
      (take_rows point0 (las_xyz las) idx,
       option_map (fun cls => take_rows color0 (map classification_color cls) idx)
         (las_classification las)).
Proof.
  intros las.
  assert (Hch : forall n m, (m < n)%nat -> forall i, In i (seq 0 m) -> (i < n)%nat).
  { intros n m Hm i Hi. apply in_seq in Hi. lia. }
  assert (Hal : forall cls, las_classification las = Some cls ->
                length cls = length (las_xyz las)).
  { intros cls E. injection E as <-. reflexivity. }
  split; [exact Hch|]. split; [exact Hal|].
  exact (load_urban_las_selects_rows (fun _ m => seq 0 m) (Some 1%nat) (Some 1) las Hch Hal).
Defined.

Lemma sample_step_size_incl (choice : nat -> nat -> list nat) (max_points : option nat)
    (points : list point) (colors : option (list color)) :
  (forall n m, (m < n)%nat ->
     length (choice n m) = m /\ forall i, In i (choice n m) -> (i < n)%nat) ->
  let '(points', _) := sample_step choice max_points points colors in
  length points' = match max_points with
                   | Some (S k) => Nat.min (length points) (S k)
                   | _ => length points
                   end /\
  incl points' points.
Proof.
  intros Hch. unfold sample_step.
  destruct max_points as [[|k]|]; simpl; try (split; [reflexivity | apply incl_refl]).
  destruct (S k <? length points)%nat eqn:E.
  - apply Nat.ltb_lt in E. destruct (Hch _ _ E) as [Hl Hr]. split.
    + rewrite length_take_rows, Hl. lia.
    + intros q Hq. unfold take_rows in Hq. apply in_map_iff in Hq as [i [<- Hi]].
      apply nth_In, Hr, Hi.
  - apply Nat.ltb_ge in E. split; [lia | apply incl_refl].
Qed.

(** The sampling step keeps [min(N, max_points)] of the input points when
    [max_points] is truthy, and all of them when it is [None] or [0]. *)
Theorem sample_step_size (choice : nat -> nat -> list nat) (max_points : option nat)
    (points : list point) (colors : option (list color))
    (Hchoice : forall n m, (m < n)%nat ->
       length (choice n m) = m /\ forall i, In i (choice n m) -> (i < n)%nat) :
  let '(points', _) := sample_step choice max_points points colors in
  length points' = match max_points with
                   | Some (S k) => Nat.min (length points) (S k)
                   | _ => length points
                   end /\
  incl points' points.
Proof. exact (sample_step_size_incl choice max_points points colors Hchoice). Qed.

Lemma sample_step_size_witness :
  (forall n m, (m < n)%nat ->
     length (seq 0 m) = m /\ forall i, In i (seq 0 m) -> (i < n)%nat) /\
  (let '(points', _) := sample_step (fun _ m => seq 0 m) (Some 2%nat)
                          [(0, 0, 0); (1, 0, 0); (2, 0, 0)]%Q None in
   length points' = Nat.min 3 2 /\ incl points' [(0, 0, 0); (1, 0, 0); (2, 0, 0)]%Q).
Proof.
  assert (Hch : forall n m, (m < n)%nat ->
     length (seq 0 m) = m /\ forall i, In i (seq 0 m) -> (i < n)%nat).
  { intros n m Hm. split; [apply length_seq|]. intros i Hi. apply in_seq in Hi. lia. }
  split; [exact Hch|].
  exact (sample_step_size (fun _ m => seq 0 m) (Some 2%nat)
           [(0, 0, 0); (1, 0, 0); (2, 0, 0)]%Q None Hch).
Defined.

Lemma fold_left_Qmin_le l x :
  fold_left Qmin l x <= x /\ forall y, In y l -> fold_left Qmin l x <= y.
Proof.
  revert x; induction l as [|a l IH]; intros x; simpl.
  - split; [apply Qle_refl | intros y []].
  - destruct (IH (Qmin x a)) as [H1 H2]. split.
    + eapply Qle_trans; [exact H1 | apply Q.le_min_l].
    + intros y [<- | Hy]; [eapply Qle_trans; [exact H1 | apply Q.le_min_r] | apply H2, Hy].
Qed.

Lemma fold_left_Qmax_ge l x :
  x <= fold_left Qmax l x /\ forall y, In y l -> y <= fold_left Qmax l x.
Proof.
  revert x; induction l as [|a l IH]; intros x; simpl.
  - split; [apply Qle_refl | intros y []].
  - destruct (IH (Qmax x a)) as [H1 H2]. split.
    + eapply Qle_trans; [apply Q.le_max_l | exact H1].
    + intros y [<- | Hy]; [eapply Qle_trans; [apply Q.le_max_r | exact H1] | apply H2, Hy].
Qed.

Lemma list_min_le x l y : In y (x :: l) -> list_min x l <= y.
Proof.
  unfold list_min. destruct (fold_left_Qmin_le l x) as [H1 H2].
  intros [<- | Hy]; [exact H1 | apply H2, Hy].
Qed.

Lemma list_max_ge x l y : In y (x :: l) -> y <= list_max x l.
Proof.
  unfold list_max. destruct (fold_left_Qmax_ge l x) as [H1 H2].
  intros [<- | Hy]; [exact H1 | apply H2, Hy].
Qed.

Lemma bounds_of_in points :
  points <> [] -> exists b, bounds_of points = Some b /\ Forall (in_bounds b) points.
Proof.
  destruct points as [|p ps]; [contradiction|]. intros _.
  eexists; split; [reflexivity|].
  apply Forall_forall. intros q Hq.
  pose proof (in_map px _ _ Hq) as Hx. pose proof (in_map py _ _ Hq) as Hy.
  pose proof (in_map pz _ _ Hq) as Hz.
  cbv beta iota delta [in_bounds].
  repeat split; first [apply list_min_le | apply list_max_ge]; assumption.
Qed.

Lemma downsample_step_nonempty downsample_voxel points colors :
  points <> [] -> fst (downsample_step downsample_voxel points colors) <> [].
Proof.
  intros Hne. unfold downsample_step.
  destruct downsample_voxel as [v|]; [|exact Hne].
  destruct (truthy_float (Some v)); [|exact Hne].
  destruct (np_unique_return_index_spec v points) as [_ [_ Hcover]].
  destruct points as [|p ps]; [contradiction|].
  destruct (Hcover 0%nat ltac:(simpl; lia)) as [j [Hj _]].
  unfold voxel_downsample, take_rows. simpl fst.
  destruct (np_unique_return_index _); [contradiction | discriminate].
Qed.

Lemma downsample_step_colors downsample_voxel points colors :
  match snd (downsample_step downsample_voxel points colors) with
  | Some _ => true | None => false end =
  match colors with Some _ => true | None => false end.
Proof.
  unfold downsample_step. destruct downsample_voxel as [v|]; [|reflexivity].
  destruct (truthy_float (Some v)); [|reflexivity]. destruct colors; reflexivity.
Qed.

Lemma sample_step_colors choice max_points points colors :
  match snd (sample_step choice max_points points colors) with
  | Some _ => true | None => false end =
  match colors with Some _ => true | None => false end.
Proof.
  unfold sample_step. destruct max_points as [m|]; [|reflexivity].
  destruct (_ && _); [|reflexivity]. destruct colors; reflexivity.
Qed.

(** [PointCloudLoader.load] raises on a file with no point, and on any
    other file returns metadata that counts the returned points, reports
    bounds that contain every returned point and flags colors exactly when
    the file has RGB channels; the returned cloud is never empty. *)
Theorem load_full_metadata (choice : nat -> nat -> list nat) (max_points : option nat)
    (downsample_voxel : option Q) (las : las_file)
    (Hchoice : forall n m, (m < n)%nat ->
       length (choice n m) = m /\ forall i, In i (choice n m) -> (i < n)%nat) :
  (las_xyz las = [] -> load_full choice max_points downsample_voxel las = None) /\
  (las_xyz las <> [] ->
   let '(points, colors) := load choice max_points downsample_voxel las in
   exists md,
     load_full choice max_points downsample_voxel las = Some (points, colors, md) /\
     points <> [] /\
     num_points md = length points /\
     Forall (in_bounds (bounds md)) points /\
     has_colors md = match las_rgb las with Some _ => true | None => false end).
Proof.
  split; [intros E; unfold load_full; rewrite E; reflexivity|].
  intros Hne.
  destruct (bounds_of_in _ Hne) as [b0 [Hb0 _]].
  destruct (downsample_step downsample_voxel (las_xyz las)
              (option_map rgb_colors (las_rgb las))) as [p1 c1] eqn:E1.
  pose proof (downsample_step_nonempty downsample_voxel (las_xyz las)
                (option_map rgb_colors (las_rgb las)) Hne) as Hne1.
  pose proof (downsample_step_colors downsample_voxel (las_xyz las)
                (option_map rgb_colors (las_rgb las))) as Hc1.
  rewrite E1 in Hne1, Hc1. simpl in Hne1, Hc1.
  pose proof (sample_step_size_incl choice max_points p1 c1 Hchoice) as Hs.
  pose proof (sample_step_colors choice max_points p1 c1) as Hc2.
  assert (Hload : load choice max_points downsample_voxel las =
                  sample_step choice max_points p1 c1)
    by (unfold load; rewrite E1; reflexivity).
  rewrite Hload.
  destruct (sample_step choice max_points p1 c1) as [p2 c2] eqn:E2.
  destruct Hs as [Hlen _]. simpl in Hc2.
  assert (Hne2 : p2 <> []).
  { intros ->. simpl in Hlen. destruct p1 as [|q p1]; [contradiction|].
    destruct max_points as [[|k]|]; simpl in Hlen; lia. }
  destruct (bounds_of_in _ Hne2) as [b [Hb Hin]].
  exists (mk_metadata (length p2) b (match c2 with Some _ => true | None => false end)).
  split; [|split; [exact Hne2 | split; [reflexivity | split; [exact Hin|]]]].
  - unfold load_full. rewrite Hb0, Hload, Hb. reflexivity.
  - simpl. rewrite Hc2, Hc1. destruct (las_rgb las); reflexivity.
Qed.

Lemma load_full_metadata_witness :
  let las := mk_las [(0, 0, 0); (1#2, 3, 0); (5, -1, 2)]%Q None None in
  (forall n m, (m < n)%nat ->
     length (seq 0 m) = m /\ forall i, In i (seq 0 m) -> (i < n)%nat) /\
  load_full (fun _ m => seq 0 m) (Some 2%nat) (Some 1) las =
    Some ([(0, 0, 0); (1#2, 3, 0)]%Q, None,
          mk_metadata 2 ((0, 1#2), (0, 3), (0, 0))%Q false) /\
  ((las_xyz las = [] -> load_full (fun _ m => seq 0 m) (Some 2%nat) (Some 1) las = None) /\
   (las_xyz las <> [] ->
    let '(points, colors) := load (fun _ m => seq 0 m) (Some 2%nat) (Some 1) las in
    exists md,
      load_full (fun _ m => seq 0 m) (Some 2%nat) (Some 1) las = Some (points, colors, md) /\
      points <> [] /\
      num_points md = length points /\
      Forall (in_bounds (bounds md)) points /\
      has_colors md = match las_rgb las with Some _ => true | None => false end)).
Proof.
  intros las.
  assert (Hch : forall n m, (m < n)%nat ->
     length (seq 0 m) = m /\ forall i, In i (seq 0 m) -> (i < n)%nat).
  { intros n m Hm. split; [apply length_seq|]. intros i Hi. apply in_seq in Hi. lia. }
  split; [exact Hch|]. split; [vm_compute; reflexivity|].
  exact (load_full_metadata (fun _ m => seq 0 m) (Some 2%nat) (Some 1) las Hch).
Defined.

(** ** center_points and normalize_points *)

Lemma px_psub p c : px (psub p c) = px p - px c.
Proof. destruct p as [[x y] z], c as [[a b] d]; reflexivity. Qed.
Lemma py_psub p c : py (psub p c) = py p - py c.
Proof. destruct p as [[x y] z], c as [[a b] d]; reflexivity. Qed.
Lemma pz_psub p c : pz (psub p c) = pz p - pz c.
Proof. destruct p as [[x y] z], c as [[a b] d]; reflexivity. Qed.

Lemma inject_Z_of_nat_S n : inject_Z (Z.of_nat (S n)) == inject_Z (Z.of_nat n) + 1.
Proof. rewrite Nat2Z.inj_succ. unfold Z.succ. rewrite inject_Z_plus. reflexivity. Qed.

Lemma inject_Z_of_nat_nonneg n : 0 <= inject_Z (Z.of_nat n).
Proof. change 0 with (inject_Z 0). rewrite <- Zle_Qle. lia. Qed.

Lemma sum_shift (l : list Q) m :
  fold_right Qplus 0 (map (fun x => x - m) l) ==
  fold_right Qplus 0 l - inject_Z (Z.of_nat (length l)) * m.
Proof.
  induction l as [|x l IH]; simpl map; simpl fold_right; [simpl; ring|].
  rewrite IH, (inject_Z_of_nat_S (length l)). ring.
Qed.

Lemma sum_sub_mean (l : list Q) m :
  np_mean l = Some m -> fold_right Qplus 0 (map (fun x => x - m) l) == 0.
Proof.
  destruct l as [|x l]; [discriminate|]. intros E.
  assert (Hm : m = fold_right Qplus 0 (x :: l) / inject_Z (Z.of_nat (length (x :: l)))).
  { injection E as E. rewrite <- E. reflexivity. }
  subst m. rewrite sum_shift. simpl fold_right.
  rewrite (inject_Z_of_nat_S (length l)).
  pose proof (inject_Z_of_nat_nonneg (length l)) as Hn.
  set (n := inject_Z (Z.of_nat (length l))) in *.
  set (S := fold_right Qplus 0 l).
  field. lra.
Qed.

(** [center_points] moves a non-empty cloud to its centroid: the centered
    coordinates sum to zero on each axis, and adding the returned center
    back gives every input point again. *)
Theorem center_points_centroid (points : list point) (Hne : points <> []) :
  exists center,
    center_points points = (map (fun p => psub p center) points, Some center) /\
    fold_right Qplus 0 (map px (fst (center_points points))) == 0 /\
    fold_right Qplus 0 (map py (fst (center_points points))) == 0 /\
    fold_right Qplus 0 (map pz (fst (center_points points))) == 0 /\
    (forall i, (i < length points)%nat ->
       px (nth i (fst (center_points points)) point0) + px center == px (nth i points point0) /\
       py (nth i (fst (center_points points)) point0) + py center == py (nth i points point0) /\
       pz (nth i (fst (center_points points)) point0) + pz center == pz (nth i points point0)).
Proof.
  unfold center_points, np_mean3.
  destruct (np_mean (map px points)) as [mx|] eqn:Ex;
    [|destruct points; [contradiction | discriminate]].
  destruct (np_mean (map py points)) as [my|] eqn:Ey;
    [|destruct points; [contradiction | discriminate]].
  destruct (np_mean (map pz points)) as [mz|] eqn:Ez;
    [|destruct points; [contradiction | discriminate]].
  exists (mx, my, mz). simpl fst. split; [reflexivity|].
  rewrite !map_map.
  split; [|split; [|split]].
  - replace (map (fun p => px (psub p (mx, my, mz))) points)
      with (map (fun x => x - mx) (map px points))
      by (rewrite map_map; apply map_ext; intros p; symmetry; apply px_psub).
    apply sum_sub_mean, Ex.
  - replace (map (fun p => py (psub p (mx, my, mz))) points)
      with (map (fun x => x - my) (map py points))
      by (rewrite map_map; apply map_ext; intros p; symmetry; apply py_psub).
    apply sum_sub_mean, Ey.
  - replace (map (fun p => pz (psub p (mx, my, mz))) points)
      with (map (fun x => x - mz) (map pz points))
      by (rewrite map_map; apply map_ext; intros p; symmetry; apply pz_psub).
    apply sum_sub_mean, Ez.
  - intros i Hi. set (f := fun p => psub p (mx, my, mz)).
    rewrite (nth_indep (map f points) point0 (f point0)) by (rewrite length_map; exact Hi).
    rewrite map_nth. unfold f. rewrite px_psub, py_psub, pz_psub. simpl. repeat split; ring.
Qed.

Lemma center_points_centroid_witness :
  [(0, 0, 0); (2, 4, -6)]%Q <> [] /\
  exists center,
    center_points [(0, 0, 0); (2, 4, -6)]%Q =
      (map (fun p => psub p center) [(0, 0, 0); (2, 4, -6)]%Q, Some center) /\
    fold_right Qplus 0 (map px (fst (center_points [(0, 0, 0); (2, 4, -6)]%Q))) == 0 /\
    fold_right Qplus 0 (map py (fst (center_points [(0, 0, 0); (2, 4, -6)]%Q))) == 0 /\
    fold_right Qplus 0 (map pz (fst (center_points [(0, 0, 0); (2, 4, -6)]%Q))) == 0 /\
    (forall i, (i < length [(0, 0, 0); (2, 4, -6)]%Q)%nat ->
       px (nth i (fst (center_points [(0, 0, 0); (2, 4, -6)]%Q)) point0) + px center ==
         px (nth i [(0, 0, 0); (2, 4, -6)]%Q point0) /\
       py (nth i (fst (center_points [(0, 0, 0); (2, 4, -6)]%Q)) point0) + py center ==
         py (nth i [(0, 0, 0); (2, 4, -6)]%Q point0) /\
       pz (nth i (fst (center_points [(0, 0, 0); (2, 4, -6)]%Q)) point0) + pz center ==
         pz (nth i [(0, 0, 0); (2, 4, -6)]%Q point0)).
Proof.
  split; [discriminate|].
  exact (center_points_centroid [(0, 0, 0); (2, 4, -6)]%Q ltac:(discriminate)).
Defined.

Lemma coords_pdiv p s : coords (pdiv p s) = map (fun q => q / s) (coords p).
Proof. destruct p as [[x y] z]; reflexivity. Qed.

(** [normalize_points] maps a non-empty cloud into the cube [-1, 1]^3:
    the returned scale is non-negative, every normalized coordinate lies
    in [-1, 1], and when the scale is positive some coordinate reaches
    -1 or 1. *)
Theorem normalize_points_unit_cube (points : list point) (Hne : points <> []) :
  exists normalized scale,
    normalize_points points = Some (normalized, scale) /\
    length normalized = length points /\
    0 <= scale /\
    (forall p q, In p normalized -> In q (coords p) -> -1 <= q <= 1) /\
    (0 < scale -> exists p q, In p normalized /\ In q (coords p) /\ Qabs q == 1).
Proof.
  unfold normalize_points.
  destruct (center_points points) as [centered co] eqn:Ec.
  assert (Hlen : length centered = length points).
  { revert Ec. unfold center_points. destruct (np_mean3 points).
    - intros E; injection E as <- _. apply length_map.
    - intros E; injection E as <- _. reflexivity. }
  destruct centered as [|p0 cs]; [destruct points; [contradiction | discriminate]|].
  set (flat := flat_map coords (p0 :: cs)).
  destruct (map Qabs flat) as [|a rest] eqn:Ef.
  { unfold flat in Ef. destruct p0 as [[x y] z]. discriminate. }
  simpl np_max. set (M := list_max a rest).
  assert (Hbound : forall q, In q flat -> Qabs q <= M).
  { intros q Hq. apply list_max_ge. rewrite <- Ef. apply in_map, Hq. }
  assert (HM : 0 <= M).
  { assert (Ha : In a (map Qabs flat)) by (rewrite Ef; left; reflexivity).
    apply in_map_iff in Ha as [q [<- _]]. eapply Qle_trans; [apply Qabs_nonneg|].
    apply list_max_ge. left. reflexivity. }
  assert (Hin_flat : forall p q, In p (p0 :: cs) -> In q (coords p) -> In q flat).
  { intros p q Hp Hq. apply in_flat_map. exists p. split; assumption. }
  cbv iota beta.
  destruct (Qlt_le_dec 0 M) as [Hpos | Hle].
  - exists (map (fun p => pdiv p M) (p0 :: cs)), M. split; [reflexivity|].
    split; [rewrite length_map; exact Hlen|]. split; [exact HM|]. split.
    + intros p q Hp Hq. apply in_map_iff in Hp as [p' [<- Hp']].
      rewrite coords_pdiv in Hq. apply in_map_iff in Hq as [q' [<- Hq']].
      pose proof (Hbound q' (Hin_flat _ _ Hp' Hq')) as Hb.
      apply Qabs_Qle_condition in Hb as [Hb1 Hb2]. split.
      * apply Qle_shift_div_l; [exact Hpos | lra].
      * apply Qle_shift_div_r; [exact Hpos | lra].
    + intros _.
      assert (HMin : In M (map Qabs flat)).
      { rewrite Ef. apply fold_left_choice, Qmax_choice. }
      apply in_map_iff in HMin as [q0 [Hq0 Hq0f]].
      apply in_flat_map in Hq0f as [p [Hp Hq]].
      exists (pdiv p M), (q0 / M). split; [apply (in_map (fun p => pdiv p M)), Hp|].
      split; [rewrite coords_pdiv; apply (in_map (fun q => q / M)), Hq|].
      unfold Qdiv. rewrite Qabs_Qmult, Qabs_Qinv, Hq0, (Qabs_pos M HM).
      field. lra.
  - exists (p0 :: cs), M. split; [reflexivity|].
    split; [exact Hlen|]. split; [exact HM|]. split.
    + intros p q Hp Hq. pose proof (Hbound q (Hin_flat _ _ Hp Hq)) as Hb.
      apply Qabs_Qle_condition in Hb. lra.
    + intros Hpos. lra.
Qed.

Lemma normalize_points_unit_cube_witness :
  [(1, 0, 0); (3, 2, -4)]%Q <> [] /\
  exists normalized scale,
    normalize_points [(1, 0, 0); (3, 2, -4)]%Q = Some (normalized, scale) /\
    length normalized = length [(1, 0, 0); (3, 2, -4)]%Q /\
    0 <= scale /\
    (forall p q, In p normalized -> In q (coords p) -> -1 <= q <= 1) /\
    (0 < scale -> exists p q, In p normalized /\ In q (coords p) /\ Qabs q == 1).
Proof.
  split; [discriminate|].
  exact (normalize_points_unit_cube [(1, 0, 0); (3, 2, -4)]%Q ltac:(discriminate)).
Defined.

Lemma np_clip_low x lo hi : x <= lo -> lo <= hi -> np_clip x lo hi == lo.
Proof.
  intros H1 H2. unfold np_clip.
  destruct (Q.max_spec x lo) as [[A E] | [A E]];
  destruct (Q.min_spec (Qmax x lo) hi) as [[B F] | [B F]]; lra.
Qed.

Lemma np_clip_high x lo hi : hi <= x -> lo <= hi -> np_clip x lo hi == hi.
Proof.
  intros H1 H2. unfold np_clip.
  destruct (Q.max_spec x lo) as [[A E] | [A E]];
  destruct (Q.min_spec (Qmax x lo) hi) as [[B F] | [B F]]; lra.
Qed.

Lemma np_clip_mono x y lo hi : x <= y -> np_clip x lo hi <= np_clip y lo hi.
Proof.
  intros Hxy. unfold np_clip. apply Q.min_le_compat_r, Q.max_le_compat_r, Hxy.
Qed.

(** ** Zoom *)

(** With the camera's zoom speed 2, pressing W and then S does not give
    the distance back: it ends at 96% of where it started whenever no
    clamp is hit on the way. *)
Theorem zoom_in_then_out (c : camera) (Hs : zoom_speed c = 2)
    (Hd : 5#4 <= distance c <= 1000) :
  distance (zoom (zoom c 1) (-1)) == (24#25) * distance c.
Proof.
  unfold zoom. simpl. rewrite Hs.
  set (d := distance c) in *.
  rewrite (Q.min_l (d * (1 - 1 * 2 * (1#10))) 1000) by lra.
  rewrite (Q.max_r 1 (d * (1 - 1 * 2 * (1#10)))) by lra.
  rewrite (Q.min_l (d * (1 - 1 * 2 * (1#10)) * (1 - -1 * 2 * (1#10))) 1000) by lra.
  rewrite (Q.max_r 1 (d * (1 - 1 * 2 * (1#10)) * (1 - -1 * 2 * (1#10)))) by lra.
  ring.
Qed.

Lemma zoom_in_then_out_witness :
  zoom_speed default_camera = 2 /\ 5#4 <= distance default_camera <= 1000 /\
  distance (zoom (zoom default_camera 1) (-1)) == (24#25) * distance default_camera.
Proof.
  assert (Hs : zoom_speed default_camera = 2) by reflexivity.
  assert (Hd : 5#4 <= distance default_camera <= 1000) by (simpl; lra).
  split; [exact Hs|]. split; [exact Hd|].
  exact (zoom_in_then_out default_camera Hs Hd).
Defined.

(** ** Callbacks *)

Section CallbackFacts.
Context {C : Type} `{CameraOps C}.

Lemma handle_event_point_size (v : viewer C) e :
  1 <= point_size v <= 10 -> 1 <= point_size (handle_event v e) <= 10.
Proof.
  intros [H1 H2]. destruct e as [b a cx cy | x y | xo yo | k a]; simpl.
  - unfold mouse_button_callback.
    destruct (Z.eqb a GLFW_PRESS); [|destruct (Z.eqb a GLFW_RELEASE)]; simpl; lra.
  - unfold mouse_move_callback. destruct (mouse_pressed v); simpl; lra.
  - lra.
  - unfold key_callback.
    repeat match goal with |- context [if ?b then _ else _] => destruct b end;
      simpl; try lra.
    + split; [apply Q.min_glb; lra | apply Q.le_min_r].
    + split; [apply Q.le_max_r | apply Q.max_lub; lra].
Qed.

(** The +/- keys keep the point size in [1, 10] from any starting size in
    that range, whatever events come in between. *)
Theorem point_size_stays_in_range (v : viewer C) (es : list event)
    (Hv : 1 <= point_size v <= 10) :
  1 <= point_size (handle_events v es) <= 10.
Proof.
  unfold handle_events. revert v Hv.
  induction es as [|e es IH]; intros v Hv; simpl; [exact Hv|].
  apply IH, handle_event_point_size, Hv.
Qed.

(** Cursor motion with no button held changes nothing: no camera call, no
    field update. *)
Theorem cursor_moves_idle (v : viewer C) (path : list (Q * Q))
    (Hv : mouse_pressed v = false) :
  handle_events v (cursor_moves path) = v.
Proof.
  unfold handle_events, cursor_moves. revert v Hv.
  induction path as [|q path IH]; intros v Hv; simpl; [reflexivity|].
  unfold mouse_move_callback at 1. rewrite Hv. apply IH, Hv.
Qed.

(** The reset key replaces the camera but does not end a drag: the next
    cursor move rotates the fresh camera by the motion since the press. *)
Theorem reset_keeps_drag (v : viewer C) (x0 y0 x1 y1 : Q) :
  let v' := handle_events v [MouseButtonEv MOUSE_BUTTON_LEFT GLFW_PRESS x0 y0;
                             KeyEv KEY_R GLFW_PRESS; CursorPosEv x1 y1] in
  v_camera v' = cam_rotate cam_new (x1 - x0) (- (y1 - y0)) /\
  mouse_pressed v' = true.
Proof. split; reflexivity. Qed.

End CallbackFacts.

Lemma point_size_stays_in_range_witness :
  1 <= point_size (@initial_viewer _ recording_camera) <= 10 /\
  1 <= point_size (handle_events (@initial_viewer _ recording_camera)
                     [KeyEv KEY_EQUAL GLFW_PRESS; KeyEv KEY_MINUS GLFW_REPEAT]) <= 10.
Proof.
  assert (Hv : 1 <= point_size (@initial_viewer _ recording_camera) <= 10) by (simpl; lra).
  split; [exact Hv|].
  exact (point_size_stays_in_range _ [KeyEv KEY_EQUAL GLFW_PRESS; KeyEv KEY_MINUS GLFW_REPEAT] Hv).
Defined.

Lemma cursor_moves_idle_witness :
  mouse_pressed (@initial_viewer _ recording_camera) = false /\
  handle_events (@initial_viewer _ recording_camera) (cursor_moves [(1, 2); (3, 4)]%Q) =
    @initial_viewer _ recording_camera.
Proof.
  split; [reflexivity|]. exact (cursor_moves_idle (@initial_viewer _ recording_camera) [(1, 2); (3, 4)]%Q eq_refl).
Defined.

Lemma last_cons_default {A} (l : list A) (p d : A) : last (p :: l) d = last l p.
Proof.
  revert p d; induction l as [|a l IH]; intros p d; [reflexivity|].
  change (last (a :: l) d = last (a :: l) p). rewrite (IH a d), (IH a p). reflexivity.
Qed.

Lemma left_drag_moves (path : list (Q * Q)) (v : viewer (list camera_call)) :
  mouse_pressed v = true -> mouse_button v = Some MOUSE_BUTTON_LEFT ->
  let v' := handle_events v (cursor_moves path) in
  exists calls,
    v_camera v' = v_camera v ++ calls /\ length calls = length path /\
    Forall (fun c => exists a e, c = CallRotate a e) calls /\
    fst (rotate_total calls) == fst (last path (last_mouse_x v, last_mouse_y v)) - last_mouse_x v /\
    snd (rotate_total calls) == last_mouse_y v - snd (last path (last_mouse_x v, last_mouse_y v)) /\
    mouse_pressed v' = true /\ mouse_button v' = Some MOUSE_BUTTON_LEFT.
Proof.
  revert v. induction path as [|[qx qy] path IH]; intros v Hp Hb v'.
  - exists []. unfold v'. simpl. rewrite app_nil_r.
    repeat split; try constructor; try assumption; simpl; ring.
  - set (v1 := mk_viewer (v_camera v ++ [CallRotate (qx - last_mouse_x v) (- (qy - last_mouse_y v))])
                         true qx qy (Some MOUSE_BUTTON_LEFT) (point_size v) (should_close v)).
    assert (Hv' : v' = handle_events v1 (cursor_moves path)).
    { unfold v', v1. change (handle_events (handle_event v (CursorPosEv qx qy))
                               (cursor_moves path) = handle_events v1 (cursor_moves path)).
      simpl handle_event. unfold mouse_move_callback. rewrite Hp, Hb. reflexivity. }
    rewrite Hv'. clear Hv' v'.
    destruct (IH v1 eq_refl eq_refl) as [calls [Hc [Hl [Hf [Hx [Hy [Hp' Hb']]]]]]].
    exists (CallRotate (qx - last_mouse_x v) (- (qy - last_mouse_y v)) :: calls).
    simpl in Hc, Hx, Hy.
    rewrite last_cons_default.
    split; [rewrite Hc, <- app_assoc; reflexivity|].
    split; [simpl; rewrite Hl; reflexivity|].
    split; [constructor; [eauto | exact Hf]|].
    split; [simpl; rewrite Hx; ring|].
    split; [simpl; rewrite Hy; ring|].
    split; assumption.
Qed.

(** A left-button drag along a cursor path makes one [rotate] call per
    motion event and nothing else; the azimuth deltas add up to the total
    horizontal motion and the elevation deltas to minus the total vertical
    motion, whatever the intermediate positions. *)
Theorem left_drag_rotates_by_path (v : viewer (list camera_call)) (x0 y0 : Q)
    (path : list (Q * Q)) :
  let v' := handle_events v (MouseButtonEv MOUSE_BUTTON_LEFT GLFW_PRESS x0 y0 ::
                             cursor_moves path) in
  exists calls,
    v_camera v' = v_camera v ++ calls /\ length calls = length path /\
    Forall (fun c => exists a e, c = CallRotate a e) calls /\
    fst (rotate_total calls) == fst (last path (x0, y0)) - x0 /\
    snd (rotate_total calls) == y0 - snd (last path (x0, y0)) /\
    mouse_pressed v' = true.
Proof.
  intros v'.
  destruct (left_drag_moves path (mouse_button_callback v MOUSE_BUTTON_LEFT GLFW_PRESS x0 y0)
              eq_refl eq_refl) as [calls [Hc [Hl [Hf [Hx [Hy [Hp _]]]]]]].
  exists calls. repeat split; assumption.
Qed.

(** ** Height colormap order *)

Lemma height_colormap_nth (heights : list Q) :
  heights <> [] ->
  exists f colors,
    height_colormap heights = Some colors /\
    (forall k, (k < length heights)%nat ->
       nth k colors color0 = colormap_color (f (nth k heights 0))) /\
    let h_min := list_min (hd 0 heights) (tl heights) in
    let h_max := list_max (hd 0 heights) (tl heights) in
    ((h_min < h_max /\ forall h, f h = (h - h_min) / (h_max - h_min)) \/
     (h_max <= h_min /\ forall h, f h = 0)).
Proof.
  destruct heights as [|h0 hs]; [contradiction|]. intros _.
  unfold height_colormap. simpl np_min. simpl np_max. simpl hd. simpl tl.
  set (m := list_min h0 hs). set (M := list_max h0 hs). cbv beta iota zeta.
  destruct (Qlt_le_dec m M) as [Hlt | Hle].
  - exists (fun h => (h - m) / (M - m)).
    exists (map colormap_color (map (fun h => (h - m) / (M - m)) (h0 :: hs))).
    split; [reflexivity|].
    split; [|left; split; [exact Hlt | reflexivity]].
    intros k Hk. rewrite map_map.
    rewrite nth_indep with (d' := colormap_color ((0 - m) / (M - m)))
      by (rewrite length_map; exact Hk).
    apply (map_nth (fun h => colormap_color ((h - m) / (M - m)))).
  - exists (fun _ => 0). exists (map colormap_color (map (fun _ => 0) (h0 :: hs))).
    split; [reflexivity|].
    split; [|right; split; [exact Hle | reflexivity]].
    intros k Hk. rewrite map_map.
    rewrite nth_indep with (d' := colormap_color 0) by (rewrite length_map; exact Hk).
    exact (map_nth (fun _ : Q => colormap_color 0) (h0 :: hs) 0 k).
Qed.

(** In the height colormap a higher point is never less red and never more
    blue than a lower one. *)
Theorem height_colormap_monotone (heights : list Q) (i j : nat)
    (Hi : (i < length heights)%nat) (Hj : (j < length heights)%nat)
    (Hij : nth i heights 0 <= nth j heights 0) :
  exists colors,
    height_colormap heights = Some colors /\
    px (nth i colors color0) <= px (nth j colors color0) /\
    pz (nth j colors color0) <= pz (nth i colors color0).
Proof.
  assert (Hne : heights <> []) by (intros ->; simpl in Hi; lia).
  destruct (height_colormap_nth heights Hne) as [f [colors [Hc [Hnth Hf]]]].
  exists colors. split; [exact Hc|]. rewrite (Hnth i Hi), (Hnth j Hj).
  assert (Hmono : f (nth i heights 0) <= f (nth j heights 0)).
  { destruct Hf as [[Hlt Hf] | [_ Hf]]; rewrite !Hf; [|apply Qle_refl].
    unfold Qdiv. apply Qmult_le_compat_r; [lra|].
    apply Qinv_le_0_compat. lra. }
  unfold colormap_color, px, pz. simpl. split; apply np_clip_mono; lra.
Qed.

Lemma height_colormap_monotone_witness :
  (1 < length [3; 1; 2]%Q)%nat /\ (2 < length [3; 1; 2]%Q)%nat /\
  nth 1 [3; 1; 2]%Q 0 <= nth 2 [3; 1; 2]%Q 0 /\
  exists colors,
    height_colormap [3; 1; 2]%Q = Some colors /\
    px (nth 1 colors color0) <= px (nth 2 colors color0) /\
    pz (nth 2 colors color0) <= pz (nth 1 colors color0).
Proof.
  assert (H1 : (1 < length [3; 1; 2]%Q)%nat) by (simpl; lia).
  assert (H2 : (2 < length [3; 1; 2]%Q)%nat) by (simpl; lia).
  assert (H3 : nth 1 [3; 1; 2]%Q 0 <= nth 2 [3; 1; 2]%Q 0) by (simpl; lra).
  split; [exact H1|]. split; [exact H2|]. split; [exact H3|].
  exact (height_colormap_monotone [3; 1; 2]%Q 1 2 H1 H2 H3).
Defined.

Lemma list_min_in x l : In (list_min x l) (x :: l).
Proof. apply fold_left_choice, Qmin_choice. Qed.

Lemma list_max_in x l : In (list_max x l) (x :: l).
Proof. apply fold_left_choice, Qmax_choice. Qed.

(** When the heights are not all equal, the lowest point is pure blue and
    the highest pure red. *)
Theorem height_colormap_extremes (heights : list Q) (i j : nat)
    (Hi : (i < length heights)%nat) (Hj : (j < length heights)%nat)
    (Hlow : forall k, (k < length heights)%nat -> nth i heights 0 <= nth k heights 0)
    (Hhigh : forall k, (k < length heights)%nat -> nth k heights 0 <= nth j heights 0)
    (Hlt : nth i heights 0 < nth j heights 0) :
  exists colors,
    height_colormap heights = Some colors /\
    px (nth i colors color0) == 0 /\ py (nth i colors color0) == 0 /\
    pz (nth i colors color0) == 1 /\
    px (nth j colors color0) == 1 /\ py (nth j colors color0) == 0 /\
    pz (nth j colors color0) == 0.
Proof.
  assert (Hne : heights <> []) by (intros ->; simpl in Hi; lia).
  destruct (height_colormap_nth heights Hne) as [f [colors [Hc [Hnth Hf]]]].
  exists colors. split; [exact Hc|]. rewrite (Hnth i Hi), (Hnth j Hj).
  destruct heights as [|h0 hs]; [contradiction|]. simpl hd in Hf. simpl tl in Hf.
  set (m := list_min h0 hs) in *. set (M := list_max h0 hs) in *.
  assert (Hm : m == nth i (h0 :: hs) 0).
  { apply Qle_antisym.
    - apply list_min_le, nth_In, Hi.
    - destruct (In_nth _ _ 0 (list_min_in h0 hs)) as [k [Hk Ek]].
      fold m in Ek. rewrite <- Ek. apply Hlow, Hk. }
  assert (HM : M == nth j (h0 :: hs) 0).
  { apply Qle_antisym.
    - destruct (In_nth _ _ 0 (list_max_in h0 hs)) as [k [Hk Ek]].
      fold M in Ek. rewrite <- Ek. apply Hhigh, Hk.
    - apply list_max_ge, nth_In, Hj. }
  destruct Hf as [[HmM Hf] | [HMm _]]; [|exfalso; lra].
  rewrite !Hf.
  assert (E0 : (nth i (h0 :: hs) 0 - m) / (M - m) == 0).
  { rewrite Hm. unfold Qdiv. ring. }
  assert (E1 : (nth j (h0 :: hs) 0 - m) / (M - m) == 1).
  { rewrite <- HM. field. lra. }
  set (n0 := (nth i (h0 :: hs) 0 - m) / (M - m)) in *.
  set (n1 := (nth j (h0 :: hs) 0 - m) / (M - m)) in *.
  unfold colormap_color, px, py, pz. cbn [fst snd].
  assert (A0 : Qabs (n0 - (1#2)) == 1#2).
  { rewrite E0. reflexivity. }
  assert (A1 : Qabs (n1 - (1#2)) == 1#2).
  { rewrite E1. reflexivity. }
  repeat split;
    first [ apply np_clip_low; lra | apply np_clip_high; lra ].
Qed.

Lemma height_colormap_extremes_witness :
  let hs := [3; 1; 2]%Q in
  (1 < length hs)%nat /\ (0 < length hs)%nat /\
  (forall k, (k < length hs)%nat -> nth 1 hs 0 <= nth k hs 0) /\
  (forall k, (k < length hs)%nat -> nth k hs 0 <= nth 0 hs 0) /\
  nth 1 hs 0 < nth 0 hs 0 /\
  exists colors,
    height_colormap hs = Some colors /\
    px (nth 1 colors color0) == 0 /\ py (nth 1 colors color0) == 0 /\
    pz (nth 1 colors color0) == 1 /\
    px (nth 0 colors color0) == 1 /\ py (nth 0 colors color0) == 0 /\
    pz (nth 0 colors color0) == 0.
Proof.
  intros hs.
  assert (H1 : (1 < length hs)%nat) by (simpl; lia).
  assert (H2 : (0 < length hs)%nat) by (simpl; lia).
  assert (H3 : forall k, (k < length hs)%nat -> nth 1 hs 0 <= nth k hs 0).
  { intros k Hk. simpl in Hk. destruct k as [|[|[|k]]]; simpl; try lra; lia. }
  assert (H4 : forall k, (k < length hs)%nat -> nth k hs 0 <= nth 0 hs 0).
  { intros k Hk. simpl in Hk. destruct k as [|[|[|k]]]; simpl; try lra; lia. }
  assert (H5 : nth 1 hs 0 < nth 0 hs 0) by (simpl; lra).
  split; [exact H1|]. split; [exact H2|]. split; [exact H3|]. split; [exact H4|].
  split; [exact H5|].
  exact (height_colormap_extremes hs 1 0 H1 H2 H3 H4 H5).
Defined.

(** ** load_points *)


(** ** remove_outliers keeps rows aligned *)







(** [main] copies [--point-size] into the renderer unchecked; a size above
    10.5 is still above 10 after a "-" press, so the [1, 10] range of the
    keys only holds once the size is inside it. *)
Theorem point_size_minus_above_range {C} `{CameraOps C} (v : viewer C)
    (Hv : 21#2 < point_size v) :
  10 < point_size (key_callback v KEY_MINUS GLFW_PRESS).
Proof.
  unfold key_callback. simpl.
  eapply Qlt_le_trans; [|apply Q.le_max_l]. lra.
Qed.

Lemma point_size_minus_above_range_witness :
  21#2 < point_size (with_point_size (@initial_viewer _ recording_camera) 20) /\
  10 < point_size (key_callback (with_point_size (@initial_viewer _ recording_camera) 20)
                     KEY_MINUS GLFW_PRESS).
Proof.
  assert (Hv : 21#2 < point_size (with_point_size (@initial_viewer _ recording_camera) 20))
    by (simpl; lra).
  split; [exact Hv|]. exact (point_size_minus_above_range _ Hv).
Defined.
